(** * papers-feed: the browser extension's source integrations and the
      background script's frontend handlers

    A shallow embedding of
      - [extension/source-integration/acl-anthology/index.ts],
        [.../ieee/index.ts], [.../nber/index.ts], [.../newspapers/index.ts]
        (metadata extractors and paper-id derivation), and
      - [background.ts] (the trust check on messages of the companion
        frontend, the manual-read-status and delete handlers).
    In the source tree at hand [ieee/index.ts] follows the ACL Anthology
    integration in the file [acl-anthology/index.ts], and [background.ts]
    follows the NBER integration in [nber/index.ts]; line numbers below
    are those of these files.

    Strings.  A JavaScript string is a sequence of UTF-16 code units; here a
    string is a [string] of the Standard Library, one [ascii] per code unit,
    so the embedding covers the strings whose code units are below 256.
    Host names and paths produced by [URL], GitHub owner and repository
    names, dates and object keys are all such strings. *)

From Stdlib Require Import Bool Arith Lia List Ascii String NArith.
From Stdlib Require Import DecimalString.
Import ListNotations.

Local Open Scope list_scope.
Local Open Scope string_scope.

Set Implicit Arguments.

(* ================================================================== *)
(** * Part I.  The embedding *)
(* ================================================================== *)

(** ** JavaScript string primitives used by the sources *)

Module Js.

Definition code (c : ascii) : nat := nat_of_ascii c.

Definition between (lo hi : nat) (c : ascii) : bool :=
  (lo <=? code c)%nat && (code c <=? hi)%nat.

(** [String.prototype.toLowerCase] on one code unit below 256: A-Z and
    the Latin-1 capitals U+00C0..U+00DE (U+00D7, the multiplication sign,
    apart) move up by 32. *)
Definition lower_char (c : ascii) : ascii :=
  if between 65 90 c || (between 192 222 c && negb (code c =? 215)%nat)
  then ascii_of_nat (code c + 32)
  else c.

Fixpoint toLowerCase (s : string) : string :=
  match s with
  | EmptyString => EmptyString
  | String c s' => String (lower_char c) (toLowerCase s')
  end.

(** White space and line terminators of ECMAScript below 256:
    TAB, LF, VT, FF, CR, SP and NBSP. *)
Definition is_space (c : ascii) : bool :=
  between 9 13 c || (code c =? 32)%nat || (code c =? 160)%nat.

Fixpoint trimStart (s : string) : string :=
  match s with
  | String c s' => if is_space c then trimStart s' else s
  | EmptyString => EmptyString
  end.

(** [trimEnd]: a character is dropped when it is white space and all
    that follows it has been dropped. *)
Fixpoint trimEnd (s : string) : string :=
  match s with
  | String c s' =>
      match trimEnd s' with
      | EmptyString => if is_space c then EmptyString else String c EmptyString
      | t => String c t
      end
  | EmptyString => EmptyString
  end.

Definition trim (s : string) : string := trimEnd (trimStart s).

(** JavaScript truthiness of a string: [!s] is [is_empty s]. *)
Definition is_empty (s : string) : bool :=
  match s with EmptyString => true | _ => false end.

Definition startsWith (s p : string) : bool := String.prefix p s.

(** [s.slice(n)] for [0 <= n]. *)
Fixpoint slice (n : nat) (s : string) : string :=
  match n, s with
  | O, _ => s
  | S n', String _ s' => slice n' s'
  | S _, EmptyString => EmptyString
  end.

(** [s.split(sep)] where every separator is one character of the class
    [p]: [split(',')], [split('/')] and [split(/[,;]/)].  The result has
    one more piece than [s] has separators. *)
Fixpoint split (p : ascii -> bool) (s : string) : list string :=
  match s with
  | EmptyString => [EmptyString]
  | String c s' =>
      if p c then EmptyString :: split p s'
      else match split p s' with
           | piece :: pieces => String c piece :: pieces
           | [] => [String c EmptyString]
           end
  end.

Definition is_char (c : ascii) : ascii -> bool := Ascii.eqb c.

(** [pieces.join(sep)]. *)
Definition join (sep : string) (pieces : list string) : string :=
  String.concat sep pieces.

(** [s.includes(c)] for a one-character needle. *)
Fixpoint includes (c : ascii) (s : string) : bool :=
  match s with
  | EmptyString => false
  | String d s' => Ascii.eqb c d || includes c s'
  end.

(** A template literal's rendering of a non-negative integer that is
    below 2^53 (an issue number). *)
Definition of_number (n : N) : string :=
  NilEmpty.string_of_uint (N.to_uint n).

End Js.

(** ** Regular expressions

    The patterns of the sources are sequences of literals, character
    classes, a class under [?], [+] or [{n}], one capture group and the
    assertions [^] and [$]; none carries a flag, so [match] and [test]
    keep no state between calls.  The matcher is a backtracking one, as
    ECMAScript's: [run] lists the ways a pattern can match at a position in
    the order the backtracking tries them, and the first one is the match. *)

Module Regex.

Inductive item : Type :=
| Lit (s : string)                 (* literal characters *)
| Cls (p : ascii -> bool)          (* one character of a class *)
| Opt (p : ascii -> bool)          (* class? , greedy *)
| Plus (p : ascii -> bool)         (* class+ , greedy *)
| Rep (n : nat) (p : ascii -> bool)(* class{n} *)
| Open                             (* ( of group 1 *)
| Close                            (* ) of group 1 *)
| Bol                              (* ^ *)
| Eol.                             (* $ *)

Definition regex := list item.

(** Character classes. *)
Definition digit (c : ascii) : bool := Js.between 48 57 c.          (* \d *)
Definition upper (c : ascii) : bool := Js.between 65 90 c.
Definition lowerc (c : ascii) : bool := Js.between 97 122 c.
Definition word (c : ascii) : bool :=                                (* \w *)
  upper c || lowerc c || digit c || Js.is_char "_" c.

Record mstate : Type := {
  rest : string;            (* input not consumed yet *)
  pos : nat;                (* index of [rest] in the input *)
  gopen : option string;    (* input at the open parenthesis *)
  group1 : option string    (* text captured by group 1 *)
}.

Definition advance (st : mstate) (s' : string) : mstate :=
  {| rest := s';
     pos := pos st + (String.length (rest st) - String.length s');
     gopen := gopen st;
     group1 := group1 st |}.

Fixpoint strip_prefix (l s : string) : option string :=
  match l, s with
  | EmptyString, _ => Some s
  | String a l', String b s' => if Ascii.eqb a b then strip_prefix l' s' else None
  | String _ _, EmptyString => None
  end.

(** What is left after one or more characters of class [p], the longest
    run first. *)
Fixpoint plus_rests (p : ascii -> bool) (s : string) : list string :=
  match s with
  | String c s' => if p c then (plus_rests p s' ++ [s'])%list else []
  | EmptyString => []
  end.

Fixpoint rep_rest (n : nat) (p : ascii -> bool) (s : string) : option string :=
  match n with
  | O => Some s
  | S n' =>
      match s with
      | String c s' => if p c then rep_rest n' p s' else None
      | EmptyString => None
      end
  end.

Fixpoint take (n : nat) (s : string) : string :=
  match n, s with
  | S n', String c s' => String c (take n' s')
  | _, _ => EmptyString
  end.

Definition step (it : item) (st : mstate) : list mstate :=
  match it with
  | Lit l =>
      match strip_prefix l (rest st) with
      | Some s' => [advance st s']
      | None => []
      end
  | Cls p =>
      match rest st with
      | String c s' => if p c then [advance st s'] else []
      | EmptyString => []
      end
  | Opt p =>
      match rest st with
      | String c s' => if p c then [advance st s'; st] else [st]
      | EmptyString => [st]
      end
  | Plus p => map (advance st) (plus_rests p (rest st))
  | Rep n p =>
      match rep_rest n p (rest st) with
      | Some s' => [advance st s']
      | None => []
      end
  | Open =>
      [{| rest := rest st; pos := pos st;
          gopen := Some (rest st); group1 := group1 st |}]
  | Close =>
      match gopen st with
      | Some g =>
          [{| rest := rest st; pos := pos st; gopen := gopen st;
              group1 := Some (take (String.length g - String.length (rest st)) g) |}]
      | None => [st]
      end
  | Bol => if (pos st =? 0)%nat then [st] else []
  | Eol => if Js.is_empty (rest st) then [st] else []
  end.

Fixpoint run (r : regex) (st : mstate) : list mstate :=
  match r with
  | [] => [st]
  | it :: r' => flat_map (run r') (step it st)
  end.

(** The matcher's state at index [i], where [s] is the input from [i]. *)
Definition start (s : string) (i : nat) : mstate :=
  {| rest := s; pos := i; gopen := None; group1 := None |}.

(** The match that starts at index [i]. *)
Definition exec_at (r : regex) (i : nat) (s : string) : option mstate :=
  hd_error (run r (start s i)).

(** Group 1 of the first of the listed ways to match, if there is one. *)
Definition first_group (ways : list mstate) : option (option string) :=
  option_map group1 (hd_error ways).


(** The leftmost match: start indices are tried from [i] up to the end of
    the input, the end included. *)
Fixpoint search_from (r : regex) (i : nat) (s : string) : option mstate :=
  match exec_at r i s with
  | Some st => Some st
  | None =>
      match s with
      | String _ s' => search_from r (S i) s'
      | EmptyString => None
      end
  end.

(** [s.match(r)] of a pattern without the g flag; [None] is [null]. *)
Definition exec (r : regex) (s : string) : option mstate := search_from r 0 s.

(** [r.test(s)]. *)
Definition test (r : regex) (s : string) : bool :=
  match exec r s with Some _ => true | None => false end.

(** [s.replace(r, '')] of a pattern without the g flag: the leftmost
    match is cut out of [s], and [s] is returned as it is when there is
    none. *)
Fixpoint remove_from (r : regex) (i : nat) (s : string) : string :=
  match exec_at r i s with
  | Some m => rest m
  | None =>
      match s with
      | String c s' => String c (remove_from r (S i) s')
      | EmptyString => EmptyString
      end
  end.

Definition remove (r : regex) (s : string) : string := remove_from r 0 s.

End Regex.

(** ** background.ts (nber/index.ts, from line 81) *)

Module Background.

(** The two fields of a parsed [URL] that the trust check reads. *)
Record URL : Type := { hostname : string; pathname : string }.

(** l. 105: [const READ_DATE_PATTERN = /^\d{4}-\d{2}-\d{2}$/] *)
Definition READ_DATE_PATTERN : Regex.regex :=
  [ Regex.Bol; Regex.Rep 4 Regex.digit; Regex.Lit "-";
    Regex.Rep 2 Regex.digit; Regex.Lit "-"; Regex.Rep 2 Regex.digit;
    Regex.Eol ].

(** [!x] for [x : string | undefined]. *)
Definition falsy (x : option string) : bool :=
  match x with
  | None => true
  | Some s => Js.is_empty s
  end.

Section TrustCheck.

(** [new URL(url)] is the platform's parser: [None] stands for the
    [TypeError] it throws on an input that is no absolute URL. *)
Variable URL_new : string -> option URL.

(** The global [githubRepo]. *)
Variable githubRepo : string.

(** l. 111-133 *)
Definition isTrustedFrontendUrl (url : option string) : bool :=
  if falsy url || Js.is_empty githubRepo then false
  else
    match url with
    | None => false
    | Some url =>
        match URL_new url with
        | None => false                                   (* catch *)
        | Some parsedUrl =>
            let parts := Js.split (Js.is_char "/") githubRepo in
            let owner := nth_error parts 0 in
            let repo := nth_error parts 1 in
            if falsy owner || falsy repo then false
            else
              match owner, repo with
              | Some owner, Some repo =>
                  let host := Js.toLowerCase (hostname parsedUrl) in
                  let path := Js.toLowerCase (pathname parsedUrl) in
                  let repoPath := "/" ++ Js.toLowerCase repo in
                  let expectedHost := Js.toLowerCase owner ++ ".github.io" in
                  let isGitHubPagesPath :=
                    String.eqb host expectedHost &&
                    (String.eqb path repoPath
                     || String.eqb path (repoPath ++ "/")
                     || Js.startsWith path (repoPath ++ "/")) in
                  let isLocalDev :=
                    String.eqb host "localhost" || String.eqb host "127.0.0.1" in
                  isGitHubPagesPath || isLocalDev
              | _, _ => false
              end
        end
    end.

End TrustCheck.

(** l. 437-445 *)
Definition toInteractionObjectId (paperKey : string) : option string :=
  if Js.startsWith paperKey "paper:" then
    Some ("interactions:" ++ Js.slice (String.length "paper:") paperKey)
  else if Js.startsWith paperKey "paper." then
    Some ("interactions." ++ Js.slice (String.length "paper.") paperKey)
  else None.

(** *** Values, messages and the outside world *)

(** The JavaScript values a message field or a request body can hold. *)
#[warnings="-register-all"]
Inductive JsValue : Type :=
| JsUndefined
| JsNull
| JsBoolean (b : bool)
| JsNumber (n : Z)
| JsString (s : string)
| JsArray (items : list JsValue)
| JsObject (fields : list (string * JsValue)).

(** What a rejected promise or a [throw] carries: an [Error] with its
    message, or any other value. *)
Inductive Thrown : Type :=
| ErrorObject (message : string)
| OtherThrown.

(** [error instanceof Error ? error.message : 'Unknown error'] *)
Definition error_message (e : Thrown) : string :=
  match e with
  | ErrorObject m => m
  | OtherThrown => "Unknown error"
  end.

Record StoreIssueSummary : Type := { number : N }.

(** The options object of [client.fetchFromGitHub(path, options)]; [body]
    holds the value handed to [JSON.stringify]. *)
Record FetchOptions : Type := {
  method : string;
  params : list (string * string);
  body : option JsValue
}.

(** A call on the store client, as the trace of a run records it. *)
Inductive StoreCall : Type :=
| CallFetch (path : string) (options : FetchOptions)
| CallUpdateObject (objectId : string) (data : JsValue).

Inductive LogEntry : Type :=
| LogInfo (text : string) (payload : JsValue)
| LogWarn (text : string) (reason : Thrown)
| LogError (text : string) (reason : Thrown).

(** The object passed to [sendResponse]. *)
Record Response : Type := { success : bool; error : option string }.

Definition ok_response : Response := {| success := true; error := None |}.
Definition failure (msg : string) : Response :=
  {| success := false; error := Some msg |}.

Record MessageSender : Type := { sender_url : option string }.

Record Message : Type := { paperKey : JsValue; manuallyRead : JsValue }.

Definition of_option_string (x : option string) : JsValue :=
  match x with
  | Some s => JsString s
  | None => JsUndefined
  end.

Section Handlers.

(** The persisted state behind the GitHub store, whatever it is. *)
Variable Store : Type.

(** [GitHubStoreClient] of the package gh-store-client: each method
    takes the store to its next state and resolves or rejects. *)
Record GitHubStoreClient : Type := {
  fetchFromGitHub :
    string -> FetchOptions -> Store ->
    Store * (Thrown + option (list StoreIssueSummary));
  updateObject :
    string -> JsValue -> Store -> Store * (Thrown + unit)
}.

(** What a handler can touch: the store, the calls made on the client
    so far, the logger's output and the responses sent. *)
Record World : Type := {
  store : Store;
  calls : list StoreCall;
  logs : list LogEntry;
  responses : list Response
}.

(** A computation that may throw. *)
Definition M (A : Type) : Type := World -> World * (Thrown + A).

Definition ret {A} (a : A) : M A := fun w => (w, inr a).

Definition bind {A B} (m : M A) (k : A -> M B) : M B :=
  fun w =>
    match m w with
    | (w', inr a) => k a w'
    | (w', inl e) => (w', inl e)
    end.

Definition try_catch {A} (m : M A) (handler : Thrown -> M A) : M A :=
  fun w =>
    match m w with
    | (w', inl e) => handler e w'
    | done => done
    end.

Definition record_call (c : StoreCall) (w : World) : World :=
  {| store := store w; calls := (calls w ++ [c])%list;
     logs := logs w; responses := responses w |}.

Definition with_store (w : World) (s : Store) : World :=
  {| store := s; calls := calls w; logs := logs w; responses := responses w |}.

Definition call_fetch (client : GitHubStoreClient) (path : string)
    (options : FetchOptions) : M (option (list StoreIssueSummary)) :=
  fun w =>
    let w1 := record_call (CallFetch path options) w in
    let (s', r) := fetchFromGitHub client path options (store w1) in
    (with_store w1 s', r).

Definition call_updateObject (client : GitHubStoreClient) (objectId : string)
    (data : JsValue) : M unit :=
  fun w =>
    let w1 := record_call (CallUpdateObject objectId data) w in
    let (s', r) := updateObject client objectId data (store w1) in
    (with_store w1 s', r).

Definition logger (entry : LogEntry) : M unit :=
  fun w =>
    ({| store := store w; calls := calls w;
        logs := (logs w ++ [entry])%list; responses := responses w |}, inr tt).

Definition sendResponse (r : Response) : M unit :=
  fun w =>
    ({| store := store w; calls := calls w;
        logs := logs w; responses := (responses w ++ [r])%list |}, inr tt).

Notation "x <- m ;; k" := (bind m (fun x => k))
  (at level 61, m at next level, right associativity).
Notation "m ;;; k" := (bind m (fun _ => k))
  (at level 61, right associativity).

(** The globals of the background script that the handlers read. *)
Variable URL_new : string -> option URL.
Variable githubRepo : string.
(** [paperManager]: [None] is [null]; a manager is known here by the
    client its [getClient()] returns. *)
Variable paperManager : option GitHubStoreClient.

(** [typeof message.paperKey === 'string' ? message.paperKey.trim() : ''] *)
Definition normalized_key (message : Message) : string :=
  match paperKey message with
  | JsString s => Js.trim s
  | _ => ""
  end.

(** [message.manuallyRead ?? null] *)
Definition nullish_to_null (v : JsValue) : JsValue :=
  match v with
  | JsUndefined => JsNull
  | v => v
  end.

(** [manuallyRead !== null &&
     (typeof manuallyRead !== 'string' || !READ_DATE_PATTERN.test(manuallyRead))] *)
Definition bad_manuallyRead (v : JsValue) : bool :=
  match v with
  | JsNull => false
  | JsString s => negb (Regex.test READ_DATE_PATTERN s)
  | _ => true
  end.

(** l. 393-435 *)
Definition handleFrontendUpdateManualReadStatus
    (message : Message) (sender : MessageSender) : M unit :=
  let paperKey := normalized_key message in
  let manuallyRead := nullish_to_null (manuallyRead message) in
  if negb (isTrustedFrontendUrl URL_new githubRepo (sender_url sender)) then
    sendResponse (failure "Untrusted frontend origin")
  else if Js.is_empty paperKey then
    sendResponse (failure "Invalid paper key")
  else if bad_manuallyRead manuallyRead then
    sendResponse (failure "Invalid manuallyRead date format")
  else
    match paperManager with
    | None =>
        sendResponse
          (failure "GitHub sync is not configured in extension options")
    | Some client =>
        try_catch
          (call_updateObject client paperKey
             (JsObject [("manuallyRead", manuallyRead)]) ;;;
           logger (LogInfo ("Synced manual read status for " ++ paperKey)
                     (JsObject [("manuallyRead", manuallyRead);
                                ("sender", of_option_string (sender_url sender))])) ;;;
           sendResponse ok_response)
          (fun error =>
             logger (LogError "Error syncing manual read status from frontend" error) ;;;
             sendResponse (failure (error_message error)))
    end.

(** l. 447-464 *)
Definition findIssueNumberForObject (client : GitHubStoreClient)
    (objectId : string) : M (option N) :=
  matchingIssues <-
    call_fetch client "/issues"
      {| method := "GET";
         params := [("labels", "stored-object,UID:" ++ objectId);
                    ("state", "all")];
         body := None |} ;;
  match matchingIssues with
  | None => ret None
  | Some [] => ret None
  | Some (first :: _) => ret (Some (number first))
  end.

(** [!issueNumber] for [issueNumber : number | null]. *)
Definition no_issue (issueNumber : option N) : bool :=
  match issueNumber with
  | None => true
  | Some n => N.eqb n 0
  end.

(** l. 466-485 *)
Definition archiveObjectById (client : GitHubStoreClient)
    (objectId : string) : M bool :=
  issueNumber <- findIssueNumberForObject client objectId ;;
  if no_issue issueNumber then ret false
  else
    match issueNumber with
    | Some n =>
        call_fetch client ("/issues/" ++ Js.of_number n ++ "/labels")
          {| method := "POST"; params := [];
             body := Some (JsObject [("labels", JsArray [JsString "archived"])]) |} ;;;
        call_fetch client ("/issues/" ++ Js.of_number n)
          {| method := "PATCH"; params := [];
             body := Some (JsObject [("state", JsString "closed")]) |} ;;;
        ret true
    | None => ret false               (* [no_issue None] holds *)
    end.

(** l. 487-537 *)
Definition handleFrontendDeletePaper
    (message : Message) (sender : MessageSender) : M unit :=
  let paperKey := normalized_key message in
  if negb (isTrustedFrontendUrl URL_new githubRepo (sender_url sender)) then
    sendResponse (failure "Untrusted frontend origin")
  else if Js.is_empty paperKey then
    sendResponse (failure "Invalid paper key")
  else
    match paperManager with
    | None =>
        sendResponse
          (failure "GitHub sync is not configured in extension options")
    | Some client =>
        try_catch
          (archivedPaper <- archiveObjectById client paperKey ;;
           if negb archivedPaper then
             sendResponse (failure "Paper not found in store")
           else
             (match toInteractionObjectId paperKey with
             | Some interactionsKey =>
                 try_catch
                   (archiveObjectById client interactionsKey ;;; ret tt)
                   (fun interactionArchiveError =>
                      logger (LogWarn
                                ("Failed to archive interaction log for "
                                   ++ interactionsKey)
                                interactionArchiveError))
             | None => ret tt
             end ;;;
             logger (LogInfo ("Archived paper " ++ paperKey ++ " from frontend")
                       (JsObject [("sender", of_option_string (sender_url sender))])) ;;;
             sendResponse ok_response))
          (fun error =>
             logger (LogError "Error deleting paper from frontend" error) ;;;
             sendResponse (failure (error_message error)))
    end.

End Handlers.

End Background.

(** ** The parsed document

    A document is the forest of its nodes; [querySelectorAll] returns the
    matching elements in document order, that is, in preorder.  Tag and
    attribute names are lower-case, as the HTML parser leaves them. *)

Module Dom.

#[warnings="-register-all"]
Inductive Node : Type :=
| Element (tag : string) (attrs : list (string * string)) (children : list Node)
| Text (data : string).

Definition Document : Type := list Node.

Record Elem : Type := {
  tagName : string;
  attributes : list (string * string);
  childNodes : list Node
}.

(** [el.getAttribute(name)]: the first attribute of that name; [None] is
    [null]. *)
Fixpoint lookup (name : string) (attrs : list (string * string)) : option string :=
  match attrs with
  | [] => None
  | (k, v) :: attrs' => if String.eqb k name then Some v else lookup name attrs'
  end.

Definition getAttribute (el : Elem) (name : string) : option string :=
  lookup name (attributes el).

(** The elements below a node in document order, each with its ancestors,
    the nearest first. *)
Fixpoint elements_of (ancestors : list Elem) (n : Node) : list (Elem * list Elem) :=
  match n with
  | Text _ => []
  | Element t a cs =>
      let e := {| tagName := t; attributes := a; childNodes := cs |} in
      (e, ancestors) :: flat_map (elements_of (e :: ancestors)) cs
  end.

Definition elements (doc : Document) : list (Elem * list Elem) :=
  flat_map (elements_of []) doc.

(** [node.textContent]: the text of the node's descendants, in order. *)
Fixpoint text_of (n : Node) : string :=
  match n with
  | Text d => d
  | Element _ _ cs => String.concat "" (map text_of cs)
  end.

Definition textContent (el : Elem) : string :=
  String.concat "" (map text_of (childNodes el)).

(** Selectors: a compound selector constrains the tag, the classes and
    attribute values; a complex selector chains compounds with the
    descendant combinator; a selector list is separated by commas. *)
Record Compound : Type := {
  sel_tag : option string;
  sel_classes : list string;
  sel_attrs : list (string * string)
}.

Definition Complex : Type := list Compound.
Definition Selector : Type := list Complex.

Definition html_space (c : ascii) : bool :=
  Js.is_char "009" c || Js.is_char "010" c || Js.is_char "012" c
  || Js.is_char "013" c || Js.is_char " " c.

Definition classList (el : Elem) : list string :=
  match getAttribute el "class" with
  | Some v => filter (fun t => negb (Js.is_empty t)) (Js.split html_space v)
  | None => []
  end.

Definition has_attr (el : Elem) (kv : string * string) : bool :=
  match getAttribute el (fst kv) with
  | Some v => String.eqb v (snd kv)
  | None => false
  end.

Definition matches_compound (c : Compound) (el : Elem) : bool :=
  match sel_tag c with
  | Some t => String.eqb t (tagName el)
  | None => true
  end
  && forallb (fun k => existsb (String.eqb k) (classList el)) (sel_classes c)
  && forallb (has_attr el) (sel_attrs c).

(** [need] lists the compounds still to be found among the ancestors,
    the innermost first. *)
Fixpoint match_ancestors (need : list Compound) (ancestors : list Elem) : bool :=
  match need, ancestors with
  | [], _ => true
  | _ :: _, [] => false
  | c :: need', a :: ancestors' =>
      if matches_compound c a then match_ancestors need' ancestors'
      else match_ancestors need ancestors'
  end.

Definition matches_complex (cx : Complex) (ea : Elem * list Elem) : bool :=
  match rev cx with
  | [] => false
  | c :: need => matches_compound c (fst ea) && match_ancestors need (snd ea)
  end.

Definition querySelectorAll (doc : Document) (sel : Selector) : list Elem :=
  map fst (filter (fun ea => existsb (fun cx => matches_complex cx ea) sel)
             (elements doc)).

(** The first match in document order, [null] when there is none. *)
Definition querySelector (doc : Document) (sel : Selector) : option Elem :=
  hd_error (querySelectorAll doc sel).

(** [tag[attr="value"]] *)
Definition tag_with (t attr value : string) : Selector :=
  [[ {| sel_tag := Some t; sel_classes := []; sel_attrs := [(attr, value)] |} ]].

(** [.c] *)
Definition dot (c : string) : Compound :=
  {| sel_tag := None; sel_classes := [c]; sel_attrs := [] |}.

(** *** Induction over a document tree *)

Section NodeInduction.

Variable P : Node -> Prop.
Hypothesis on_text : forall d, P (Text d).
Hypothesis on_element :
  forall t a cs, Forall P cs -> P (Element t a cs).

(** Induction over a document tree: the children of an element all
    satisfy the property. *)
Fixpoint Node_tree_ind (n : Node) : P n :=
  match n with
  | Text d => on_text d
  | Element t a cs =>
      on_element t a
        ((fix children (l : list Node) : Forall P l :=
            match l with
            | [] => Forall_nil P
            | c :: l' => Forall_cons c (Node_tree_ind c) (children l')
            end) cs)
  end.

End NodeInduction.

End Dom.

(** ** The metadata extractors *)

(** The members of the base class [MetadataExtractor]
    (metadata-extractor.ts) that the overrides below call: the class is
    not among the sources, so its members are taken as they come. *)
Record MetadataExtractor : Type := {
  getMetaContent : Dom.Document -> Dom.Selector -> string;
  super_extractAuthors : Dom.Document -> string
}.

(** The loop shared by the three [citation_author] readers:
    [querySelectorAll('meta[name="citation_author"]').forEach(el => {
       const content = el.getAttribute('content');
       if (content) authors.push(content); })] *)
Definition push_contents (els : list Dom.Elem) : list string :=
  flat_map (fun el =>
              match Dom.getAttribute el "content" with
              | Some content => if Js.is_empty content then [] else [content]
              | None => []
              end) els.

(** *** acl-anthology/index.ts, l. 1-91 *)

Module AclAnthology.

Section Extractor.
Variable base : MetadataExtractor.
Variable document : Dom.Document.

(** l. 16-26 *)
Definition extractAuthors : string :=
  let authors :=
    push_contents
      (Dom.querySelectorAll document (Dom.tag_with "meta" "name" "citation_author")) in
  if (0 <? List.length authors)%nat then Js.join ", " authors
  else super_extractAuthors base document.

(** l. 62-68 *)
Definition extractTags : list string :=
  let keywords := getMetaContent base document (Dom.tag_with "meta" "name" "keywords") in
  if negb (Js.is_empty keywords) then
    map Js.trim (Js.split (Js.is_char ",") keywords)
  else [].
End Extractor.

(** [/aclanthology\.org\/([A-Z0-9][\w.-]+)\/?/] *)
Definition urlPatterns : list Regex.regex :=
  [ [ Regex.Lit "aclanthology.org/"; Regex.Open;
      Regex.Cls (fun c => Regex.upper c || Regex.digit c);
      Regex.Plus (fun c => Regex.word c || Js.is_char "." c || Js.is_char "-" c);
      Regex.Close; Regex.Opt (Js.is_char "/") ] ].

(** [id.replace(/\/$/, '')]: a slash that ends the string is dropped. *)
Fixpoint drop_final_slash (s : string) : string :=
  match s with
  | EmptyString => EmptyString
  | String c EmptyString => if Js.is_char "/" c then EmptyString else s
  | String c s' => String c (drop_final_slash s')
  end.

(** l. 79-84 *)
Definition extractPaperId (url : string) : option string :=
  match Regex.exec (nth 0 urlPatterns []) url with
  | None => None
  | Some m => option_map drop_final_slash (Regex.group1 m)
  end.

End AclAnthology.

(** *** ieee/index.ts (acl-anthology/index.ts, l. 92-189) *)

Module Ieee.

Section Extractor.
Variable base : MetadataExtractor.
Variable document : Dom.Document.

(** l. 107-126 *)
Definition extractAuthors : string :=
  let authors :=
    push_contents
      (Dom.querySelectorAll document (Dom.tag_with "meta" "name" "citation_author")) in
  if (0 <? List.length authors)%nat then Js.join ", " authors
  else
    let authorElements :=
      Dom.querySelectorAll document
        [ [Dom.dot "authors-info"; Dom.dot "author-name"];
          [Dom.dot "author-card"; Dom.dot "name"] ] in
    if (0 <? List.length authorElements)%nat then
      Js.join ", "
        (filter (fun t => negb (Js.is_empty t))
           (map (fun el => Js.trim (Dom.textContent el)) authorElements))
    else super_extractAuthors base document.

(** l. 160-168 *)
Definition extractTags : list string :=
  let keywords :=
    let k := getMetaContent base document
               (Dom.tag_with "meta" "name" "citation_keywords") in
    if negb (Js.is_empty k) then k
    else getMetaContent base document (Dom.tag_with "meta" "name" "keywords") in
  if negb (Js.is_empty keywords) then
    filter (fun t => negb (Js.is_empty t))
      (map Js.trim
         (Js.split (fun c => Js.is_char "," c || Js.is_char ";" c) keywords))
  else [].
End Extractor.

(** [/ieeexplore\.ieee\.org\/document\/(\d+)/] *)
Definition urlPatterns : list Regex.regex :=
  [ [ Regex.Lit "ieeexplore.ieee.org/document/"; Regex.Open;
      Regex.Plus Regex.digit; Regex.Close ] ].

(** l. 179-182 *)
Definition extractPaperId (url : string) : option string :=
  match Regex.exec (nth 0 urlPatterns []) url with
  | Some m => Regex.group1 m
  | None => None
  end.

End Ieee.

(** *** nber/index.ts, l. 1-80 *)

Module Nber.

Section Extractor.
Variable base : MetadataExtractor.
Variable document : Dom.Document.

(** l. 16-26 *)
Definition extractAuthors : string :=
  let authors :=
    push_contents
      (Dom.querySelectorAll document (Dom.tag_with "meta" "name" "citation_author")) in
  if (0 <? List.length authors)%nat then Js.join ", " authors
  else super_extractAuthors base document.

(** l. 53-59 *)
Definition extractTags : list string :=
  let keywords := getMetaContent base document (Dom.tag_with "meta" "name" "keywords") in
  if negb (Js.is_empty keywords) then
    map Js.trim (Js.split (Js.is_char ",") keywords)
  else [].
End Extractor.

(** [/nber\.org\/papers\/(w?\d+)/] *)
Definition urlPatterns : list Regex.regex :=
  [ [ Regex.Lit "nber.org/papers/"; Regex.Open;
      Regex.Opt (Js.is_char "w"); Regex.Plus Regex.digit; Regex.Close ] ].

(** l. 70-73 *)
Definition extractPaperId (url : string) : option string :=
  match Regex.exec (nth 0 urlPatterns []) url with
  | Some m => Regex.group1 m
  | None => None
  end.

End Nber.

(** *** newspapers/index.ts *)

Module Newspapers.

(** [/^By\s+/i] *)
Definition by_prefix : Regex.regex :=
  [ Regex.Bol;
    Regex.Cls (fun c => Js.is_char "B" c || Js.is_char "b" c);
    Regex.Cls (fun c => Js.is_char "Y" c || Js.is_char "y" c);
    Regex.Plus Js.is_space ].

Section Extractor.
Variable base : MetadataExtractor.
Variable document : Dom.Document.

(** l. 17-31 *)
Definition extractAuthors : string :=
  let ogAuthor :=
    let a := getMetaContent base document
               (Dom.tag_with "meta" "property" "article:author") in
    if negb (Js.is_empty a) then a
    else getMetaContent base document (Dom.tag_with "meta" "name" "author") in
  if negb (Js.is_empty ogAuthor) then ogAuthor
  else
    match Dom.querySelector document (Dom.tag_with "meta" "name" "byl") with
    | Some bylEl =>
        match Dom.getAttribute bylEl "content" with
        | Some byl =>
            if negb (Js.is_empty byl) then Regex.remove by_prefix byl
            else super_extractAuthors base document
        | None => super_extractAuthors base document
        end
    | None => super_extractAuthors base document
    end.

Definition split_tags (s : string) : list string :=
  filter (fun t => negb (Js.is_empty t))
    (map Js.trim (Js.split (Js.is_char ",") s)).

(** l. 60-74 *)
Definition extractTags : list string :=
  let newsKeywords :=
    getMetaContent base document (Dom.tag_with "meta" "name" "news_keywords") in
  if negb (Js.is_empty newsKeywords) then split_tags newsKeywords
  else
    let keywords :=
      let k := getMetaContent base document (Dom.tag_with "meta" "name" "keywords") in
      if negb (Js.is_empty k) then k
      else getMetaContent base document
             (Dom.tag_with "meta" "property" "article:tag") in
    if negb (Js.is_empty keywords) then split_tags keywords
    else [].
End Extractor.

Definition dashword (c : ascii) : bool := Regex.word c || Js.is_char "-" c.

(** [/nytimes\.com\/\d{4}\/\d{2}\/\d{2}\/[\w-]+\/[\w-]+/],
    [/newyorker\.com\/[\w-]+\/[\w-]+\/[\w-]+/],
    [/theparisreview\.org\/[\w-]+\/\d+\/[\w-]+/] *)
Definition urlPatterns : list Regex.regex :=
  [ [ Regex.Lit "nytimes.com/"; Regex.Rep 4 Regex.digit; Regex.Lit "/";
      Regex.Rep 2 Regex.digit; Regex.Lit "/"; Regex.Rep 2 Regex.digit;
      Regex.Lit "/"; Regex.Plus dashword; Regex.Lit "/"; Regex.Plus dashword ];
    [ Regex.Lit "newyorker.com/"; Regex.Plus dashword; Regex.Lit "/";
      Regex.Plus dashword; Regex.Lit "/"; Regex.Plus dashword ];
    [ Regex.Lit "theparisreview.org/"; Regex.Plus dashword; Regex.Lit "/";
      Regex.Plus Regex.digit; Regex.Lit "/"; Regex.Plus dashword ] ].

(** Modelled from the spec: [canHandleUrl] of the base class
    [BaseSourceIntegration] (base-source.ts is not among the sources);
    it returns true iff any of the integration's URL patterns match. *)
Definition canHandleUrl (url : string) : bool :=
  existsb (fun p => Regex.test p url) urlPatterns.

Section Integration.
(** [generatePaperIdFromUrl] of metadata-extractor.ts, which is not
    among the sources: some function of the URL. *)
Variable generatePaperIdFromUrl : string -> string.

(** l. 87-93 *)
Definition extractPaperId (url : string) : option string :=
  if canHandleUrl url then Some (generatePaperIdFromUrl url) else None.
End Integration.

End Newspapers.

(** ** Concrete surroundings for running the code on examples

    The theorems of Part II hold for every URL parser, every store client
    and every base extractor; the instances below are the ones the examples
    are evaluated with. *)

Module Samples.

Import Background.

Fixpoint take_until (stop : ascii -> bool) (s : string) : string :=
  match s with
  | String c s' => if stop c then EmptyString else String c (take_until stop s')
  | EmptyString => EmptyString
  end.

Fixpoint drop_until (stop : ascii -> bool) (s : string) : string :=
  match s with
  | String c s' => if stop c then s else drop_until stop s'
  | EmptyString => EmptyString
  end.

Definition ends_authority (c : ascii) : bool :=
  Js.is_char "/" c || Js.is_char "?" c || Js.is_char "#" c.

Definition ends_path (c : ascii) : bool :=
  Js.is_char "?" c || Js.is_char "#" c.

Definition after_scheme (s : string) : option string :=
  match Regex.strip_prefix "https://" s with
  | Some r => Some r
  | None => Regex.strip_prefix "http://" s
  end.

(** [new URL(s)] on the plain URLs [http(s)://host[:port][/path][?query][#fragment]]:
    the host is put in lower case, an absent path is [/]. *)
Definition URL_new (s : string) : option URL :=
  match after_scheme s with
  | None => None
  | Some r =>
      let host := take_until (Js.is_char ":") (take_until ends_authority r) in
      let path := take_until ends_path (drop_until ends_authority r) in
      if Js.is_empty host then None
      else Some {| hostname := Js.toLowerCase host;
                   pathname := if Js.startsWith path "/" then path else "/" |}
  end.

(** A client that answers from a script: every call takes the next reply;
    when the script has run out the call is rejected. *)
Definition Script : Type := list (Thrown + option (list StoreIssueSummary)).

Definition scripted : GitHubStoreClient Script :=
  {| fetchFromGitHub := fun _ _ script =>
       match script with
       | reply :: script' => (script', reply)
       | [] => ([], inl (ErrorObject "no reply"))
       end;
     updateObject := fun _ _ script =>
       match script with
       | inl e :: script' => (script', inl e)
       | inr _ :: script' => (script', inr tt)
       | [] => ([], inl (ErrorObject "no reply"))
       end |}.

Definition fresh (script : Script) : World Script :=
  {| store := script; calls := []; logs := []; responses := [] |}.

Definition found (n : N) : Thrown + option (list StoreIssueSummary) :=
  inr (Some [ {| number := n |} ]).

Definition done : Thrown + option (list StoreIssueSummary) := inr None.

Definition key_message (k : string) : Message :=
  {| paperKey := JsString k; manuallyRead := JsUndefined |}.

Definition read_message (k : string) (v : JsValue) : Message :=
  {| paperKey := JsString k; manuallyRead := v |}.

Definition from (url : string) : MessageSender := {| sender_url := Some url |}.

(** A base extractor whose [getMetaContent] reads the [content] attribute
    of the first match and whose author rule finds nothing. *)
Definition plain_base : MetadataExtractor :=
  {| getMetaContent := fun doc sel =>
       match Dom.querySelectorAll doc sel with
       | el :: _ =>
           match Dom.getAttribute el "content" with
           | Some v => v
           | None => ""
           end
       | [] => ""
       end;
     super_extractAuthors := fun _ => "" |}.

Definition meta (name content : string) : Dom.Node :=
  Dom.Element "meta" [("name", name); ("content", content)] [].

Definition page (head : list Dom.Node) : Dom.Document :=
  [ Dom.Element "html" []
      [ Dom.Element "head" [] head;
        Dom.Element "body" [] [ Dom.Element "p" [] [Dom.Text "text"] ] ] ].

End Samples.

(** ** The vocabulary of the specification

    Definitions that follow the words of the specification, for comparison
    with the code above. *)

Module Spec.

Import Background.

(** [owner] and [repo] are what the configured [githubRepo] names: its
    first two components between slashes, neither of them empty. *)
Definition names_repo (githubRepo owner repo : string) : Prop :=
  nth_error (Js.split (Js.is_char "/") githubRepo) 0 = Some owner /\
  nth_error (Js.split (Js.is_char "/") githubRepo) 1 = Some repo /\
  owner <> "" /\ repo <> "".

(** [path] equals [root] or is nested under it. *)
Definition at_or_under (root path : string) : Prop :=
  path = root \/ path = root ++ "/" \/ exists below, path = root ++ "/" ++ below.

Definition local_host (host : string) : Prop :=
  host = "localhost" \/ host = "127.0.0.1".

(** The trust rule in the words of the specification: the host is compared
    without regard to case, the path as it stands. *)
Definition trusted_as_written (owner repo : string) (u : URL) : Prop :=
  (Js.toLowerCase (hostname u) = Js.toLowerCase (owner ++ ".github.io") /\
   at_or_under ("/" ++ repo) (pathname u))
  \/ local_host (hostname u).

(** The trust rule of the code: host and path are both put in lower case
    before they are compared. *)
Definition trusted_folded (owner repo : string) (u : URL) : Prop :=
  (Js.toLowerCase (hostname u) = Js.toLowerCase owner ++ ".github.io" /\
   at_or_under ("/" ++ Js.toLowerCase repo) (Js.toLowerCase (pathname u)))
  \/ local_host (Js.toLowerCase (hostname u)).

(** Strict [YYYY-MM-DD]: four digits, a dash, two digits, a dash, two
    digits and nothing else. *)
Definition is_yyyy_mm_dd (s : string) : bool :=
  match s with
  | String y1 (String y2 (String y3 (String y4 (String h1
      (String m1 (String m2 (String h2 (String d1 (String d2 EmptyString))))))))) =>
      Regex.digit y1 && Regex.digit y2 && Regex.digit y3 && Regex.digit y4
      && Js.is_char "-" h1
      && Regex.digit m1 && Regex.digit m2
      && Js.is_char "-" h2
      && Regex.digit d1 && Regex.digit d2
  | _ => false
  end.

(** What the manual-read handler is to let through: [null], a missing
    field, or a string of the strict [YYYY-MM-DD] shape. *)
Definition well_formed_read (v : JsValue) : Prop :=
  v = JsNull \/ v = JsUndefined \/
  exists s, v = JsString s /\ is_yyyy_mm_dd s = true.

(** The [citation_author] contents of a document in document order: a
    walk over the tree that keeps the non-empty [content] of every
    [meta] element whose [name] is [citation_author]. *)
Definition author_of (tag : string) (attrs : list (string * string)) : list string :=
  if String.eqb tag "meta" then
    match Dom.lookup "name" attrs with
    | Some n =>
        if String.eqb n "citation_author" then
          match Dom.lookup "content" attrs with
          | Some c => if Js.is_empty c then [] else [c]
          | None => []
          end
        else []
    | None => []
    end
  else [].

Fixpoint authors_in (n : Dom.Node) : list string :=
  match n with
  | Dom.Text _ => []
  | Dom.Element t a cs => (author_of t a ++ flat_map authors_in cs)%list
  end.

Definition citation_authors (doc : Dom.Document) : list string :=
  flat_map authors_in doc.

(** A world after one more response and nothing else. *)
Definition answered {Store} (w : World Store) (r : Response) : World Store :=
  {| store := store w; calls := calls w; logs := logs w;
     responses := (responses w ++ [r])%list |}.

(** The requests that archive the issue [n] of an object: the lookup by
    label, the [archived] label, the closing of the issue. *)
Definition lookup_call (objectId : string) : StoreCall :=
  CallFetch "/issues"
    {| method := "GET";
       params := [("labels", "stored-object,UID:" ++ objectId); ("state", "all")];
       body := None |}.

Definition archive_calls (objectId : string) (n : N) : list StoreCall :=
  [ lookup_call objectId;
    CallFetch ("/issues/" ++ Js.of_number n ++ "/labels")
      {| method := "POST"; params := [];
         body := Some (JsObject [("labels", JsArray [JsString "archived"])]) |};
    CallFetch ("/issues/" ++ Js.of_number n)
      {| method := "PATCH"; params := [];
         body := Some (JsObject [("state", JsString "closed")]) |} ].

(** What the trust check retains of the configured repository: the
    first two components between slashes, in lower case. *)
Definition repo_key (githubRepo : string) : list string :=
  map Js.toLowerCase (firstn 2 (Js.split (Js.is_char "/") githubRepo)).

(** Every character of [s] is in the class [p]. *)
Fixpoint all_in (p : ascii -> bool) (s : string) : bool :=
  match s with
  | EmptyString => true
  | String c s' => p c && all_in p s'
  end.

(** [s] starts with a character of the class [p]. *)
Definition starts_in (p : ascii -> bool) (s : string) : bool :=
  match s with
  | String c _ => p c
  | EmptyString => false
  end.

(** A tag as the extractors mean to give it: no white space around it
    and no separator of the class [sep] in it. *)
Definition clean_tag (sep : ascii -> bool) (t : string) : Prop :=
  Js.trim t = t /\ all_in (fun c => negb (sep c)) t = true.

(** [byl] starts with the letters of [By], in either case, and white
    space. *)
Definition by_then_space (byl : string) : bool :=
  match byl with
  | String b (String y (String w _)) =>
      (Js.is_char "B" b || Js.is_char "b" b)
      && (Js.is_char "Y" y || Js.is_char "y" y)
      && Js.is_space w
  | _ => false
  end.

(** A pattern without [^] and [$]. *)
Definition unanchored (r : Regex.regex) : bool :=
  forallb (fun it =>
             match it with
             | Regex.Bol | Regex.Eol => false
             | _ => true
             end) r.

(** What one item of an unanchored pattern can take from the front of
    [s], leaving [s']. *)
Definition takes (it : Regex.item) (s s' : string) : Prop :=
  match it with
  | Regex.Lit l => s = l ++ s'
  | Regex.Cls p => exists c, p c = true /\ s = String c s'
  | Regex.Opt p => s = s' \/ exists c, p c = true /\ s = String c s'
  | Regex.Plus p => exists d, d <> "" /\ all_in p d = true /\ s = d ++ s'
  | Regex.Rep n p => exists d, String.length d = n /\ all_in p d = true /\ s = d ++ s'
  | Regex.Open | Regex.Close => s = s'
  | Regex.Bol | Regex.Eol => False
  end.

(** [s] is a text of the pattern followed by [s']. *)
Fixpoint spells (r : Regex.regex) (s s' : string) : Prop :=
  match r with
  | [] => s = s'
  | it :: r' => exists mid, takes it s mid /\ spells r' mid s'
  end.

(** [n] digits. *)
Definition digits (n : nat) (d : string) : Prop :=
  String.length d = n /\ all_in Regex.digit d = true.

(** One or more letters, digits, underscores and hyphens. *)
Definition slug (d : string) : Prop :=
  d <> "" /\ all_in Newspapers.dashword d = true.

(** The article addresses of the three newspapers, anywhere in [url]. *)
Definition nytimes_article (url : string) : Prop :=
  exists pre y m d section name post,
    digits 4 y /\ digits 2 m /\ digits 2 d /\ slug section /\ slug name /\
    url = pre ++ "nytimes.com/" ++ y ++ "/" ++ m ++ "/" ++ d ++ "/"
              ++ section ++ "/" ++ name ++ post.

Definition newyorker_article (url : string) : Prop :=
  exists pre section sub name post,
    slug section /\ slug sub /\ slug name /\
    url = pre ++ "newyorker.com/" ++ section ++ "/" ++ sub ++ "/" ++ name ++ post.

Definition parisreview_article (url : string) : Prop :=
  exists pre section number name post,
    slug section /\ number <> "" /\ all_in Regex.digit number = true /\ slug name /\
    url = pre ++ "theparisreview.org/" ++ section ++ "/" ++ number ++ "/"
              ++ name ++ post.

End Spec.

(* ================================================================== *)
(** * Part II.  Properties *)
(* ================================================================== *)

Import Background.

(** ** The code on the examples of the specification *)

Example trusted_github_pages :
  isTrustedFrontendUrl Samples.URL_new "alice/papers"
    (Some "https://alice.github.io/papers/") = true.
Proof. reflexivity. Qed.

Example trusted_nested_any_case :
  isTrustedFrontendUrl Samples.URL_new "Alice/Papers"
    (Some "https://ALICE.github.io/papers/index.html?sort=read#top") = true.
Proof. reflexivity. Qed.

Example untrusted_sibling_repository :
  isTrustedFrontendUrl Samples.URL_new "alice/papers"
    (Some "https://alice.github.io/papers-archive/") = false.
Proof. reflexivity. Qed.

Example untrusted_evil_example :
  isTrustedFrontendUrl Samples.URL_new "alice/papers" (Some "https://evil.example/") = false.
Proof. reflexivity. Qed.

Example untrusted_relative_url :
  isTrustedFrontendUrl Samples.URL_new "alice/papers" (Some "/papers/") = false.
Proof. reflexivity. Qed.

Example date_accepted : Regex.test READ_DATE_PATTERN "2023-05-01" = true.
Proof. reflexivity. Qed.

Example date_wrong_order : Regex.test READ_DATE_PATTERN "05-01-2023" = false.
Proof. reflexivity. Qed.

Example date_with_time : Regex.test READ_DATE_PATTERN "2023-05-01T10:00" = false.
Proof. reflexivity. Qed.

Example ieee_document :
  Ieee.extractPaperId "https://ieeexplore.ieee.org/document/9054643" = Some "9054643".
Proof. reflexivity. Qed.

Example nber_working_paper :
  Nber.extractPaperId "https://www.nber.org/papers/w31161?utm_source=feed" = Some "w31161".
Proof. reflexivity. Qed.

Example acl_second_occurrence :
  AclAnthology.extractPaperId
    "https://web.archive.org/aclanthology.org/https://aclanthology.org/P19-1001/"
  = Some "P19-1001".
Proof. reflexivity. Qed.

Example acl_no_paper : AclAnthology.extractPaperId "https://aclanthology.org/" = None.
Proof. reflexivity. Qed.

Example nytimes_article :
  Newspapers.canHandleUrl "https://www.nytimes.com/2023/05/01/tech/ai.html" = true.
Proof. reflexivity. Qed.

Example ieee_tags :
  Ieee.extractTags Samples.plain_base
    (Samples.page [Samples.meta "citation_keywords" "radar; sonar, ;lidar ,"])
  = ["radar"; "sonar"; "lidar"].
Proof. reflexivity. Qed.

Example ieee_authors_from_cards :
  Ieee.extractAuthors Samples.plain_base
    [ Dom.Element "div" [("class", "authors-info wide")]
        [ Dom.Element "span" [("class", "author-name")] [Dom.Text " A. Smith "];
          Dom.Element "span" [("class", "affiliation")] [Dom.Text "MIT"];
          Dom.Element "span" [("class", "blue author-name")]
            [Dom.Element "a" [] [Dom.Text "B. Lee"]] ] ]
  = "A. Smith, B. Lee".
Proof. reflexivity. Qed.

Example delete_archives_both_records :
  calls (fst (handleFrontendDeletePaper Samples.URL_new "alice/papers"
                (Some Samples.scripted)
                (Samples.key_message " paper.arxiv.2301.00001 ")
                (Samples.from "https://alice.github.io/papers/")
                (Samples.fresh [Samples.found 12; Samples.done; Samples.done;
                                Samples.found 13; Samples.done; Samples.done])))
  = (Spec.archive_calls "paper.arxiv.2301.00001" 12
     ++ Spec.archive_calls "interactions.arxiv.2301.00001" 13)%list.
Proof. reflexivity. Qed.

(** ** Strings *)

Lemma is_empty_true (s : string) : Js.is_empty s = true <-> s = "".
Proof. destruct s; simpl; split; congruence. Qed.

Lemma is_empty_false (s : string) : Js.is_empty s = false <-> s <> "".
Proof. destruct s; simpl; split; congruence. Qed.

Lemma falsy_false (x : option string) :
  falsy x = false <-> exists s, x = Some s /\ s <> "".
Proof.
  destruct x as [s|]; simpl.
  - rewrite is_empty_false. split.
    + intros H. exists s. auto.
    + intros (s' & E & H). congruence.
  - split; [discriminate | intros (s & E & _); discriminate].
Qed.

Lemma startsWith_app (p r : string) : Js.startsWith (p ++ r) p = true.
Proof.
  unfold Js.startsWith. induction p as [|a p IH]; simpl.
  - destruct r; reflexivity.
  - destruct (ascii_dec a a); [exact IH | congruence].
Qed.

Lemma startsWith_inv (s p : string) :
  Js.startsWith s p = true -> exists r, s = p ++ r.
Proof.
  unfold Js.startsWith. revert s. induction p as [|a p IH]; intros s H.
  - exists s. reflexivity.
  - destruct s as [|b s]; simpl in H; [discriminate|].
    destruct (ascii_dec a b) as [->|]; [|discriminate].
    destruct (IH _ H) as (r & ->). exists r. reflexivity.
Qed.

Lemma startsWith_iff (s p : string) :
  Js.startsWith s p = true <-> exists r, s = p ++ r.
Proof.
  split; [apply startsWith_inv | intros (r & ->); apply startsWith_app].
Qed.

Lemma slice_app (p r : string) : Js.slice (String.length p) (p ++ r) = r.
Proof. induction p as [|a p IH]; simpl; [destruct r; reflexivity | exact IH]. Qed.

(** ** The interaction-log key *)

Lemma toInteractionObjectId_colon (id : string) :
  toInteractionObjectId ("paper:" ++ id) = Some ("interactions:" ++ id).
Proof.
  unfold toInteractionObjectId.
  rewrite startsWith_app, slice_app. reflexivity.
Qed.

Lemma toInteractionObjectId_dot (id : string) :
  toInteractionObjectId ("paper." ++ id) = Some ("interactions." ++ id).
Proof.
  unfold toInteractionObjectId.
  replace (Js.startsWith ("paper." ++ id) "paper:") with false by reflexivity.
  rewrite startsWith_app, slice_app. reflexivity.
Qed.

Lemma toInteractionObjectId_other (paperKey : string) :
  (forall id, paperKey <> "paper:" ++ id) ->
  (forall id, paperKey <> "paper." ++ id) ->
  toInteractionObjectId paperKey = None.
Proof.
  intros Hcolon Hdot. unfold toInteractionObjectId.
  destruct (Js.startsWith paperKey "paper:") eqn:E1.
  - apply startsWith_inv in E1 as (id & E). destruct (Hcolon id E).
  - destruct (Js.startsWith paperKey "paper.") eqn:E2; [|reflexivity].
    apply startsWith_inv in E2 as (id & E). destruct (Hdot id E).
Qed.

(** C4.  A key [paper:<id>] gives [interactions:<id>], a key [paper.<id>]
    gives [interactions.<id>] (the delimiter of the input is kept), and a
    key that starts with neither prefix gives no interaction key ([None],
    the [null] of the source). *)
Theorem toInteractionObjectId_by_prefix (paperKey : string) :
  (forall id, paperKey = "paper:" ++ id ->
     toInteractionObjectId paperKey = Some ("interactions:" ++ id)) /\
  (forall id, paperKey = "paper." ++ id ->
     toInteractionObjectId paperKey = Some ("interactions." ++ id)) /\
  ((forall id, paperKey <> "paper:" ++ id) ->
   (forall id, paperKey <> "paper." ++ id) ->
   toInteractionObjectId paperKey = None).
Proof.
  split; [|split].
  - intros id ->. apply toInteractionObjectId_colon.
  - intros id ->. apply toInteractionObjectId_dot.
  - apply toInteractionObjectId_other.
Qed.

Lemma toInteractionObjectId_by_prefix_witness :
  toInteractionObjectId "paper:arxiv.2301.00001" = Some "interactions:arxiv.2301.00001" /\
  toInteractionObjectId "paper.arxiv.2301.00001" = Some "interactions.arxiv.2301.00001" /\
  toInteractionObjectId "papers:arxiv.2301.00001" = None.
Proof.
  split; [|split].
  - apply (proj1 (toInteractionObjectId_by_prefix "paper:arxiv.2301.00001")
             "arxiv.2301.00001").
    reflexivity.
  - apply (proj1 (proj2 (toInteractionObjectId_by_prefix "paper.arxiv.2301.00001"))
             "arxiv.2301.00001").
    reflexivity.
  - apply (proj2 (proj2 (toInteractionObjectId_by_prefix "papers:arxiv.2301.00001")));
      intros id H; simpl in H; discriminate H.
Defined.

(** ** Splitting *)

Lemma split_head (p : ascii -> bool) (s : string) :
  exists piece pieces, Js.split p s = piece :: pieces.
Proof.
  induction s as [|c s (piece & pieces & IH)]; simpl.
  - eauto.
  - destruct (p c); [eauto|]. rewrite IH. eauto.
Qed.

Lemma split_without (p : ascii -> bool) (s : string) :
  (forall c, p c = true -> Js.includes c s = false) ->
  Js.split p s = [s].
Proof.
  induction s as [|c s IH]; simpl; intros H; [reflexivity|].
  destruct (p c) eqn:E.
  - specialize (H c E). simpl in H. rewrite Ascii.eqb_refl in H. discriminate.
  - rewrite IH; [reflexivity|].
    intros d Hd. specialize (H d Hd). simpl in H.
    apply orb_false_iff in H. tauto.
Qed.

Lemma is_char_eq (c d : ascii) : Js.is_char c d = true <-> c = d.
Proof. unfold Js.is_char. apply Ascii.eqb_eq. Qed.

(** ** The trust check *)

Section TrustCheckProperties.

Variable URL_new : string -> option URL.

(** The guards of the check: without a URL, with an empty URL, with a
    URL that does not parse, or when [githubRepo] names no owner or no
    repository, the answer is [false]. *)
Lemma isTrustedFrontendUrl_guards (githubRepo : string) (url : option string) :
  isTrustedFrontendUrl URL_new githubRepo url = true ->
  exists u parsed owner repo,
    url = Some u /\ u <> "" /\ URL_new u = Some parsed /\
    Spec.names_repo githubRepo owner repo.
Proof.
  unfold isTrustedFrontendUrl, Spec.names_repo.
  set (parts := Js.split (Js.is_char "/") githubRepo).
  destruct url as [u|]; cbn [falsy orb]; [|discriminate].
  destruct (Js.is_empty u) eqn:Hu; cbn [orb]; [discriminate|].
  destruct (Js.is_empty githubRepo) eqn:Hg; [discriminate|].
  destruct (URL_new u) as [parsed|] eqn:Eparse; [|discriminate].
  cbv zeta.
  destruct (nth_error parts 0) as [owner|] eqn:Eo; cbn [falsy orb]; [|discriminate].
  destruct (Js.is_empty owner) eqn:Ho; cbn [orb]; [discriminate|].
  destruct (nth_error parts 1) as [repo|] eqn:Er; cbn [falsy]; [|discriminate].
  destruct (Js.is_empty repo) eqn:Hr; [discriminate|].
  intros _. exists u, parsed, owner, repo.
  rewrite is_empty_false in Hu, Ho, Hr. auto 10.
Qed.

Lemma isTrustedFrontendUrl_configured
    (githubRepo u owner repo : string) (parsed : URL) :
  u <> "" -> URL_new u = Some parsed ->
  Spec.names_repo githubRepo owner repo ->
  isTrustedFrontendUrl URL_new githubRepo (Some u) =
    (String.eqb (Js.toLowerCase (hostname parsed))
                (Js.toLowerCase owner ++ ".github.io")
     && (String.eqb (Js.toLowerCase (pathname parsed)) ("/" ++ Js.toLowerCase repo)
         || String.eqb (Js.toLowerCase (pathname parsed))
                       (("/" ++ Js.toLowerCase repo) ++ "/")
         || Js.startsWith (Js.toLowerCase (pathname parsed))
                          (("/" ++ Js.toLowerCase repo) ++ "/")))
    || (String.eqb (Js.toLowerCase (hostname parsed)) "localhost"
        || String.eqb (Js.toLowerCase (hostname parsed)) "127.0.0.1").
Proof.
  intros Hu Eparse (Eo & Er & Ho & Hr).
  unfold isTrustedFrontendUrl.
  apply is_empty_false in Hu, Ho, Hr.
  assert (Js.is_empty githubRepo = false) as Hg.
  { destruct githubRepo; [|reflexivity]. simpl in Eo. congruence. }
  cbn [falsy]. rewrite Hu, Hg, Eparse. cbn [orb]. cbv zeta.
  rewrite Eo, Er. cbn [falsy]. rewrite Ho, Hr. reflexivity.
Qed.

Lemma folded_reflect (owner repo : string) (parsed : URL) :
  (String.eqb (Js.toLowerCase (hostname parsed))
              (Js.toLowerCase owner ++ ".github.io")
   && (String.eqb (Js.toLowerCase (pathname parsed)) ("/" ++ Js.toLowerCase repo)
       || String.eqb (Js.toLowerCase (pathname parsed))
                     (("/" ++ Js.toLowerCase repo) ++ "/")
       || Js.startsWith (Js.toLowerCase (pathname parsed))
                        (("/" ++ Js.toLowerCase repo) ++ "/")))
  || (String.eqb (Js.toLowerCase (hostname parsed)) "localhost"
      || String.eqb (Js.toLowerCase (hostname parsed)) "127.0.0.1") = true
  <-> Spec.trusted_folded owner repo parsed.
Proof.
  unfold Spec.trusted_folded, Spec.at_or_under, Spec.local_host.
  rewrite !orb_true_iff, andb_true_iff, !orb_true_iff, !String.eqb_eq,
    startsWith_iff.
  assert (forall below,
             (("/" ++ Js.toLowerCase repo) ++ "/") ++ below
             = ("/" ++ Js.toLowerCase repo) ++ "/" ++ below) as A.
  { intros below. simpl. f_equal.
    induction (Js.toLowerCase repo) as [|c r IH]; simpl; [reflexivity|].
    f_equal. exact IH. }
  split.
  - intros [(Hh & [[Hp | Hp] | (below & Hp)]) | Hl]; auto.
    left. split; [exact Hh|]. right. right. exists below. rewrite <- A. exact Hp.
  - intros [(Hh & [Hp | [Hp | (below & Hp)]]) | Hl]; auto.
    left. split; [exact Hh|]. right. exists below. rewrite A. exact Hp.
Qed.

(** Without an owner and a repository to compare with, no URL is
    trusted. *)
Lemma isTrustedFrontendUrl_needs_repo (githubRepo : string) (url : option string) :
  (forall owner repo, ~ Spec.names_repo githubRepo owner repo) ->
  isTrustedFrontendUrl URL_new githubRepo url = false.
Proof.
  intros H.
  destruct (isTrustedFrontendUrl URL_new githubRepo url) eqn:E; [|reflexivity].
  apply isTrustedFrontendUrl_guards in E as (u & parsed & owner & repo & _ & _ & _ & E).
  destruct (H owner repo E).
Qed.

End TrustCheckProperties.

Lemma split_at_separator (p : ascii -> bool) (a b : string) (c : ascii) :
  p c = true ->
  (forall d, p d = true -> Js.includes d a = false) ->
  Js.split p (a ++ String c b) = a :: Js.split p b.
Proof.
  intros Hc. induction a as [|x a IH]; simpl; intros Ha.
  - rewrite Hc. reflexivity.
  - destruct (p x) eqn:Ex.
    + specialize (Ha x Ex). simpl in Ha. rewrite Ascii.eqb_refl in Ha. discriminate.
    + rewrite IH; [reflexivity|].
      intros d Hd. specialize (Ha d Hd). simpl in Ha.
      apply orb_false_iff in Ha. tauto.
Qed.

(** [githubRepo] written [owner/repo] names that owner and that
    repository. *)
Lemma names_repo_of_pair (owner repo : string) :
  owner <> "" -> repo <> "" ->
  Js.includes "/" owner = false -> Js.includes "/" repo = false ->
  Spec.names_repo (owner ++ "/" ++ repo) owner repo.
Proof.
  intros Ho Hr Io Ir. unfold Spec.names_repo.
  assert (forall s d, Js.includes "/" s = false ->
                      Js.is_char "/" d = true -> Js.includes d s = false) as A.
  { intros s d Hs Hd. apply is_char_eq in Hd. subst d. exact Hs. }
  change (owner ++ "/" ++ repo) with (owner ++ String "/" repo).
  rewrite split_at_separator; [|reflexivity|intros d; apply A; exact Io].
  rewrite split_without; [|intros d; apply A; exact Ir].
  simpl. auto.
Qed.

(** C1, amended.  The check accepts exactly when there is a non-empty
    sender URL that parses, [githubRepo] names an owner and a repository
    (its first two components between slashes, both non-empty), and either
    the host is [<owner>.github.io] with the path equal to [/<repo>], equal
    to [/<repo>/] or nested under [/<repo>/], host and path both compared
    in lower case, or the host in lower case is [localhost] or
    [127.0.0.1].  Everything else is rejected. *)
Theorem isTrustedFrontendUrl_iff
    (URL_new : string -> option URL) (githubRepo : string) (url : option string) :
  isTrustedFrontendUrl URL_new githubRepo url = true <->
  exists u parsed owner repo,
    url = Some u /\ u <> "" /\ URL_new u = Some parsed /\
    Spec.names_repo githubRepo owner repo /\
    Spec.trusted_folded owner repo parsed.
Proof.
  split.
  - intros H.
    destruct (isTrustedFrontendUrl_guards _ _ _ H)
      as (u & parsed & owner & repo & -> & Hu & Eparse & Hnames).
    exists u, parsed, owner, repo.
    split; [reflexivity|]. split; [exact Hu|]. split; [exact Eparse|].
    split; [exact Hnames|].
    apply folded_reflect.
    rewrite <- (isTrustedFrontendUrl_configured _ Hu Eparse Hnames). exact H.
  - intros (u & parsed & owner & repo & -> & Hu & Eparse & Hnames & Hfold).
    rewrite (isTrustedFrontendUrl_configured _ Hu Eparse Hnames).
    apply folded_reflect. exact Hfold.
Qed.

(** C1 as written fails in two ways.  A path that differs from
    [/<repoName>/] in case is accepted, although the rule as written
    compares the path as it stands; and a [localhost] URL is rejected as
    long as no repository is configured, although the rule as written
    accepts every local-development host. *)
Lemma isTrustedFrontendUrl_not_as_written :
  (let parsed := {| hostname := "alice.github.io"; pathname := "/PAPERS/" |} in
   Samples.URL_new "https://alice.github.io/PAPERS/" = Some parsed /\
   Spec.names_repo "alice/papers" "alice" "papers" /\
   ~ Spec.trusted_as_written "alice" "papers" parsed /\
   isTrustedFrontendUrl Samples.URL_new "alice/papers"
     (Some "https://alice.github.io/PAPERS/") = true)
  /\
  (let parsed := {| hostname := "localhost"; pathname := "/" |} in
   Samples.URL_new "http://localhost:3000/" = Some parsed /\
   (forall owner repo, Spec.trusted_as_written owner repo parsed) /\
   isTrustedFrontendUrl Samples.URL_new "" (Some "http://localhost:3000/") = false).
Proof.
  split; cbv zeta.
  - split; [reflexivity|]. split; [|split; [|reflexivity]].
    + unfold Spec.names_repo. simpl. repeat split; discriminate.
    + unfold Spec.trusted_as_written, Spec.at_or_under, Spec.local_host. simpl.
      intros [(_ & [H | [H | (below & H)]]) | [H | H]]; discriminate H.
  - split; [reflexivity|]. split; [|reflexivity].
    intros owner repo. right. left. reflexivity.
Qed.

(** C9.  When [githubRepo] is empty or holds no slash, the check answers
    [false] for every sender URL, the local-development hosts included. *)
Theorem isTrustedFrontendUrl_unconfigured
    (URL_new : string -> option URL) (githubRepo : string) (url : option string) :
  githubRepo = "" \/ Js.includes "/" githubRepo = false ->
  isTrustedFrontendUrl URL_new githubRepo url = false.
Proof.
  intros H.
  destruct (isTrustedFrontendUrl URL_new githubRepo url) eqn:E; [|reflexivity].
  exfalso.
  apply isTrustedFrontendUrl_guards in E
    as (u & parsed & owner & repo & _ & _ & _ & Eo & Er & Ho & _).
  destruct H as [-> | H].
  - simpl in Eo. congruence.
  - rewrite split_without in Er; [discriminate Er|].
    intros d Hd. apply is_char_eq in Hd. subst d. exact H.
Qed.

Lemma isTrustedFrontendUrl_unconfigured_witness :
  (Samples.URL_new "http://localhost:3000/"
     = Some {| hostname := "localhost"; pathname := "/" |} /\
   isTrustedFrontendUrl Samples.URL_new "" (Some "http://localhost:3000/") = false)
  /\
  (Samples.URL_new "http://127.0.0.1:8000/papers/"
     = Some {| hostname := "127.0.0.1"; pathname := "/papers/" |} /\
   isTrustedFrontendUrl Samples.URL_new "papers"
     (Some "http://127.0.0.1:8000/papers/") = false).
Proof.
  split; (split; [reflexivity|]).
  - apply isTrustedFrontendUrl_unconfigured. left. reflexivity.
  - apply isTrustedFrontendUrl_unconfigured. right. reflexivity.
Defined.

(** ** The matcher, item by item *)

Lemma flat_map_single {A B} (f : A -> list B) (a : A) : flat_map f [a] = f a.
Proof. simpl. apply app_nil_r. Qed.

Lemma run_Lit (l : string) (r : Regex.regex) (st : Regex.mstate) :
  Regex.run (Regex.Lit l :: r) st =
  match Regex.strip_prefix l (Regex.rest st) with
  | Some s' => Regex.run r (Regex.advance st s')
  | None => []
  end.
Proof.
  cbn [Regex.run Regex.step].
  destruct (Regex.strip_prefix l (Regex.rest st)); [apply flat_map_single | reflexivity].
Qed.

Lemma run_Rep (n : nat) (p : ascii -> bool) (r : Regex.regex) (st : Regex.mstate) :
  Regex.run (Regex.Rep n p :: r) st =
  match Regex.rep_rest n p (Regex.rest st) with
  | Some s' => Regex.run r (Regex.advance st s')
  | None => []
  end.
Proof.
  cbn [Regex.run Regex.step].
  destruct (Regex.rep_rest n p (Regex.rest st)); [apply flat_map_single | reflexivity].
Qed.

Lemma run_Cls (p : ascii -> bool) (r : Regex.regex) (st : Regex.mstate) :
  Regex.run (Regex.Cls p :: r) st =
  match Regex.rest st with
  | String c s' => if p c then Regex.run r (Regex.advance st s') else []
  | EmptyString => []
  end.
Proof.
  cbn [Regex.run Regex.step].
  destruct (Regex.rest st) as [|c s']; [reflexivity|].
  destruct (p c); [apply flat_map_single | reflexivity].
Qed.

Lemma run_Opt (p : ascii -> bool) (r : Regex.regex) (st : Regex.mstate) :
  Regex.run (Regex.Opt p :: r) st =
  match Regex.rest st with
  | String c s' =>
      if p c then (Regex.run r (Regex.advance st s') ++ Regex.run r st)%list
      else Regex.run r st
  | EmptyString => Regex.run r st
  end.
Proof.
  cbn [Regex.run Regex.step].
  destruct (Regex.rest st) as [|c s']; [apply flat_map_single|].
  destruct (p c); [|apply flat_map_single].
  cbn [flat_map]. rewrite app_nil_r. reflexivity.
Qed.

Lemma run_Plus (p : ascii -> bool) (r : Regex.regex) (st : Regex.mstate) :
  Regex.run (Regex.Plus p :: r) st =
  flat_map (fun s' => Regex.run r (Regex.advance st s'))
           (Regex.plus_rests p (Regex.rest st)).
Proof.
  cbn [Regex.run Regex.step].
  induction (Regex.plus_rests p (Regex.rest st)) as [|x xs IH]; simpl;
    [reflexivity | rewrite IH; reflexivity].
Qed.

Lemma run_Open (r : Regex.regex) (st : Regex.mstate) :
  Regex.run (Regex.Open :: r) st =
  Regex.run r {| Regex.rest := Regex.rest st; Regex.pos := Regex.pos st;
                 Regex.gopen := Some (Regex.rest st);
                 Regex.group1 := Regex.group1 st |}.
Proof. cbn [Regex.run Regex.step]. apply flat_map_single. Qed.

Lemma run_Close (r : Regex.regex) (st : Regex.mstate) (g : string) :
  Regex.gopen st = Some g ->
  Regex.run (Regex.Close :: r) st =
  Regex.run r {| Regex.rest := Regex.rest st; Regex.pos := Regex.pos st;
                 Regex.gopen := Some g;
                 Regex.group1 :=
                   Some (Regex.take (String.length g - String.length (Regex.rest st)) g) |}.
Proof.
  intros E. cbn [Regex.run Regex.step]. rewrite E. apply flat_map_single.
Qed.

Lemma run_Eol (r : Regex.regex) (st : Regex.mstate) :
  Regex.run (Regex.Eol :: r) st =
  if Js.is_empty (Regex.rest st) then Regex.run r st else [].
Proof.
  cbn [Regex.run Regex.step].
  destruct (Js.is_empty (Regex.rest st)); [apply flat_map_single | reflexivity].
Qed.

Lemma run_Bol (r : Regex.regex) (st : Regex.mstate) :
  Regex.run (Regex.Bol :: r) st =
  if (Regex.pos st =? 0)%nat then Regex.run r st else [].
Proof.
  cbn [Regex.run Regex.step].
  destruct (Regex.pos st =? 0)%nat; [apply flat_map_single | reflexivity].
Qed.

(** ** The date pattern *)

Lemma search_from_Bol_later (r : Regex.regex) (i : nat) (s : string) :
  Regex.search_from (Regex.Bol :: r) (S i) s = None.
Proof.
  revert i. induction s as [|c s IH]; intros i; simpl.
  - reflexivity.
  - apply IH.
Qed.

(** A pattern anchored by [^] matches at index 0 or nowhere. *)
Lemma exec_Bol (r : Regex.regex) (s : string) :
  Regex.exec (Regex.Bol :: r) s = Regex.exec_at (Regex.Bol :: r) 0 s.
Proof.
  unfold Regex.exec. destruct s as [|c s]; simpl Regex.search_from.
  - destruct (Regex.exec_at (Regex.Bol :: r) 0 ""); reflexivity.
  - rewrite search_from_Bol_later.
    destruct (Regex.exec_at (Regex.Bol :: r) 0 (String c s)); reflexivity.
Qed.

Ltac regex_steps :=
  repeat (rewrite ?run_Bol, ?run_Rep, ?run_Lit, ?run_Eol;
          cbn -[Regex.run Ascii.eqb Regex.digit];
          try match goal with
              | |- context [if Regex.digit ?c then _ else _] =>
                  destruct (Regex.digit c)
              | |- context [if Ascii.eqb ?a ?c then _ else _] =>
                  destruct (Ascii.eqb a c)
              end;
          cbn -[Regex.run Ascii.eqb Regex.digit]);
  try reflexivity.

(** [READ_DATE_PATTERN] accepts exactly the strict [YYYY-MM-DD] strings. *)
Lemma READ_DATE_PATTERN_strict (s : string) :
  Regex.test READ_DATE_PATTERN s = Spec.is_yyyy_mm_dd s.
Proof.
  unfold Regex.test, READ_DATE_PATTERN. rewrite exec_Bol.
  unfold Regex.exec_at, Spec.is_yyyy_mm_dd, Js.is_char.
  do 10 (destruct s as [|? s]; [regex_steps|]).
  destruct s; regex_steps.
Qed.

(** ** The store client as the handlers use it *)

Section StoreCalls.

Variable Store : Type.
Variable client : GitHubStoreClient Store.

(** A request on the client is recorded and touches nothing but the
    store. *)
Lemma call_fetch_frame (path : string) (options : FetchOptions)
    (w w' : World Store) r :
  call_fetch client path options w = (w', r) ->
  calls w' = (calls w ++ [CallFetch path options])%list /\
  logs w' = logs w /\ responses w' = responses w.
Proof.
  unfold call_fetch. simpl.
  destruct (fetchFromGitHub client path options (store w)) as [s' r'].
  intros E. inversion E. subst. simpl. auto.
Qed.

Lemma call_updateObject_frame (objectId : string) (data : JsValue)
    (w w' : World Store) r :
  call_updateObject client objectId data w = (w', r) ->
  calls w' = (calls w ++ [CallUpdateObject objectId data])%list /\
  logs w' = logs w /\ responses w' = responses w.
Proof.
  unfold call_updateObject. simpl.
  destruct (updateObject client objectId data (store w)) as [s' r'].
  intros E. inversion E. subst. simpl. auto.
Qed.

(** Looking an object up is one request, whatever comes back. *)
Lemma findIssueNumberForObject_frame (objectId : string) (w w' : World Store) r :
  findIssueNumberForObject client objectId w = (w', r) ->
  calls w' = (calls w ++ [Spec.lookup_call objectId])%list /\
  logs w' = logs w /\ responses w' = responses w.
Proof.
  unfold findIssueNumberForObject, bind.
  match goal with
  | |- context [call_fetch client ?p ?o w] =>
      destruct (call_fetch client p o w) as [w1 [e | reply]] eqn:E
  end;
    apply call_fetch_frame in E.
  - intros H. inversion H. subst. exact E.
  - destruct reply as [[|first rest]|]; unfold ret; intros H; inversion H; subst;
      exact E.
Qed.

(** An object is archived by three requests: the lookup, the [archived]
    label on the issue found, and the closing of that issue. *)
Lemma archiveObjectById_true (objectId : string) (w w' : World Store) :
  archiveObjectById client objectId w = (w', inr true) ->
  exists n,
    n <> 0%N /\
    calls w' = (calls w ++ Spec.archive_calls objectId n)%list /\
    logs w' = logs w /\ responses w' = responses w.
Proof.
  unfold archiveObjectById. unfold bind at 1.
  destruct (findIssueNumberForObject client objectId w) as [w1 [e | issue]] eqn:E1;
    [discriminate|].
  apply findIssueNumberForObject_frame in E1 as (C1 & L1 & R1).
  destruct issue as [n|]; [|discriminate].
  unfold no_issue. destruct (N.eqb n 0) eqn:En; [discriminate|].
  apply N.eqb_neq in En.
  unfold bind.
  match goal with
  | |- context [call_fetch client ?p ?o w1] =>
      destruct (call_fetch client p o w1) as [w2 [e | r2]] eqn:E2
  end; [discriminate|].
  apply call_fetch_frame in E2 as (C2 & L2 & R2).
  match goal with
  | |- context [call_fetch client ?p ?o w2] =>
      destruct (call_fetch client p o w2) as [w3 [e | r3]] eqn:E3
  end; [discriminate|].
  apply call_fetch_frame in E3 as (C3 & L3 & R3).
  unfold ret. intros H. inversion H. subst w'.
  exists n. split; [exact En|]. split; [|split; congruence].
  rewrite C3, C2, C1. unfold Spec.archive_calls.
  rewrite <- !app_assoc. reflexivity.
Qed.

(** When no issue is found nothing but the lookup is requested. *)
Lemma archiveObjectById_none (objectId : string) (w w1 : World Store) issueNumber :
  findIssueNumberForObject client objectId w = (w1, inr issueNumber) ->
  no_issue issueNumber = true ->
  archiveObjectById client objectId w = (w1, inr false).
Proof.
  intros E H. unfold archiveObjectById. unfold bind at 1. rewrite E, H.
  reflexivity.
Qed.

(** Archiving answers nobody and logs nothing, however it ends. *)
Lemma archiveObjectById_frame (objectId : string) (w w' : World Store) r :
  archiveObjectById client objectId w = (w', r) ->
  logs w' = logs w /\ responses w' = responses w.
Proof.
  unfold archiveObjectById. unfold bind at 1.
  destruct (findIssueNumberForObject client objectId w) as [w1 [e1 | issue]] eqn:E1;
    apply findIssueNumberForObject_frame in E1 as (_ & L1 & R1).
  - intros H. inversion H. subst. auto.
  - destruct (no_issue issue); [intros H; inversion H; subst; auto|].
    destruct issue as [n|]; [|intros H; inversion H; subst; auto].
    unfold bind.
    match goal with
    | |- context [call_fetch client ?p ?o w1] =>
        destruct (call_fetch client p o w1) as [w2 [e2 | r2]] eqn:E2
    end;
      apply call_fetch_frame in E2 as (_ & L2 & R2).
    + intros H. inversion H. subst. split; congruence.
    + match goal with
      | |- context [call_fetch client ?p ?o w2] =>
          destruct (call_fetch client p o w2) as [w3 [e3 | r3]] eqn:E3
      end;
        apply call_fetch_frame in E3 as (_ & L3 & R3);
        intros H; inversion H; subst; split; congruence.
Qed.

End StoreCalls.

(** ** The frontend handlers *)

(** C2.  When the sender URL fails the trust check, [frontendDeletePaper]
    and [frontendUpdateManualReadStatus] both answer
    [{success: false, error: "Untrusted frontend origin"}] and leave the
    world as it was apart from that answer: the store is the same and no
    call on the store client has been made. *)
Theorem untrusted_sender_is_rejected
    (Store : Type) (URL_new : string -> option URL) (githubRepo : string)
    (paperManager : option (GitHubStoreClient Store))
    (message : Message) (sender : MessageSender) (w : World Store) :
  isTrustedFrontendUrl URL_new githubRepo (sender_url sender) = false ->
  let rejected := Spec.answered w (failure "Untrusted frontend origin") in
  handleFrontendDeletePaper URL_new githubRepo paperManager message sender w
    = (rejected, inr tt) /\
  handleFrontendUpdateManualReadStatus URL_new githubRepo paperManager message sender w
    = (rejected, inr tt) /\
  store rejected = store w /\ calls rejected = calls w.
Proof.
  intros H rejected.
  unfold handleFrontendDeletePaper, handleFrontendUpdateManualReadStatus.
  rewrite H. simpl. auto.
Qed.

Lemma untrusted_sender_is_rejected_witness :
  let w := Samples.fresh [Samples.found 7; Samples.done; Samples.done] in
  let rejected := Spec.answered w (failure "Untrusted frontend origin") in
  handleFrontendDeletePaper Samples.URL_new "alice/papers" (Some Samples.scripted)
    (Samples.key_message "paper:arxiv.2301.00001")
    (Samples.from "https://evil.example/") w = (rejected, inr tt) /\
  handleFrontendUpdateManualReadStatus Samples.URL_new "alice/papers"
    (Some Samples.scripted)
    (Samples.key_message "paper:arxiv.2301.00001")
    (Samples.from "https://evil.example/") w = (rejected, inr tt) /\
  store rejected = store w /\ calls rejected = calls w.
Proof.
  apply (@untrusted_sender_is_rejected Samples.Script Samples.URL_new "alice/papers"
           (Some Samples.scripted)
           (Samples.key_message "paper:arxiv.2301.00001")
           (Samples.from "https://evil.example/")).
  reflexivity.
Defined.

Lemma well_formed_read_passes (v : JsValue) :
  Spec.well_formed_read v -> bad_manuallyRead (nullish_to_null v) = false.
Proof.
  intros [-> | [-> | (s & -> & H)]]; simpl; try reflexivity.
  rewrite READ_DATE_PATTERN_strict, H. reflexivity.
Qed.

(** C3, amended.  For a trusted sender and a key that is a string and is
    not empty once trimmed: a [manuallyRead] string that is not strictly
    [YYYY-MM-DD] is answered with "Invalid manuallyRead date format" and no
    call on the store client; a [manuallyRead] that is [null], absent or
    strictly [YYYY-MM-DD] passes validation, and then, if a paper manager
    is configured, exactly one [updateObject] call is made for the key and
    one answer is sent, while without a paper manager the answer is the
    "not configured" error and no call is made. *)
Theorem manual_read_status_validation
    (Store : Type) (URL_new : string -> option URL) (githubRepo : string)
    (paperManager : option (GitHubStoreClient Store))
    (message : Message) (sender : MessageSender) (w : World Store) :
  isTrustedFrontendUrl URL_new githubRepo (sender_url sender) = true ->
  normalized_key message <> "" ->
  let run :=
    handleFrontendUpdateManualReadStatus URL_new githubRepo paperManager message sender w in
  (forall s, manuallyRead message = JsString s -> Spec.is_yyyy_mm_dd s = false ->
     run = (Spec.answered w (failure "Invalid manuallyRead date format"), inr tt)) /\
  (Spec.well_formed_read (manuallyRead message) ->
     match paperManager with
     | Some client =>
         calls (fst run) =
           (calls w ++
            [CallUpdateObject (normalized_key message)
               (JsObject [("manuallyRead", nullish_to_null (manuallyRead message))])])%list
         /\ snd run = inr tt
         /\ exists answer, responses (fst run) = (responses w ++ [answer])%list
     | None =>
         run = (Spec.answered w
                  (failure "GitHub sync is not configured in extension options"),
                inr tt)
     end).
Proof.
  intros Htrust Hkey run. subst run.
  unfold handleFrontendUpdateManualReadStatus.
  rewrite Htrust. apply is_empty_false in Hkey. rewrite Hkey. cbn [negb].
  split.
  - intros s Es Hs. rewrite Es. cbn [nullish_to_null bad_manuallyRead].
    rewrite READ_DATE_PATTERN_strict, Hs. reflexivity.
  - intros Hv. rewrite (well_formed_read_passes Hv).
    destruct paperManager as [client|]; [|reflexivity].
    unfold try_catch, bind.
    match goal with
    | |- context [call_updateObject client ?k ?d w] =>
        destruct (call_updateObject client k d w) as [w1 [e | []]] eqn:E
    end;
      apply call_updateObject_frame in E as (C & L & R); simpl;
      (split; [exact C|]); (split; [reflexivity|]); eexists; rewrite R; reflexivity.
Qed.

Lemma manual_read_status_validation_witness :
  let w := Samples.fresh [Samples.done] in
  let sender := Samples.from "https://alice.github.io/papers/" in
  handleFrontendUpdateManualReadStatus Samples.URL_new "alice/papers"
    (Some Samples.scripted)
    (Samples.read_message "paper:arxiv.2301.00001" (JsString "05-01-2023")) sender w
  = (Spec.answered w (failure "Invalid manuallyRead date format"), inr tt)
  /\
  calls (fst (handleFrontendUpdateManualReadStatus Samples.URL_new "alice/papers"
                (Some Samples.scripted)
                (Samples.read_message "paper:arxiv.2301.00001" (JsString "2023-05-01"))
                sender w))
  = [CallUpdateObject "paper:arxiv.2301.00001"
       (JsObject [("manuallyRead", JsString "2023-05-01")])].
Proof.
  split.
  - refine (proj1 (@manual_read_status_validation Samples.Script Samples.URL_new
                     "alice/papers" (Some Samples.scripted)
                     (Samples.read_message "paper:arxiv.2301.00001" (JsString "05-01-2023"))
                     (Samples.from "https://alice.github.io/papers/")
                     (Samples.fresh [Samples.done]) _ _) "05-01-2023" _ _);
      [reflexivity | discriminate | reflexivity | reflexivity].
  - refine (proj1 (proj2 (@manual_read_status_validation Samples.Script Samples.URL_new
                     "alice/papers" (Some Samples.scripted)
                     (Samples.read_message "paper:arxiv.2301.00001" (JsString "2023-05-01"))
                     (Samples.from "https://alice.github.io/papers/")
                     (Samples.fresh [Samples.done]) _ _) _));
      [reflexivity | discriminate |].
    right. right. exists "2023-05-01". split; reflexivity.
Defined.

(** C3 as written fails in two ways.  With a well-formed date and a
    trusted sender, no store update is attempted while no paper manager is
    configured; and a key of blanks, which is not the empty string, is
    answered with "Invalid paper key" whatever the date looks like. *)
Lemma manual_read_status_not_as_written :
  let sender := Samples.from "https://alice.github.io/papers/" in
  let w := Samples.fresh [Samples.done] in
  isTrustedFrontendUrl Samples.URL_new "alice/papers" (sender_url sender) = true /\
  handleFrontendUpdateManualReadStatus Samples.URL_new "alice/papers" None
    (Samples.read_message "paper:arxiv.2301.00001" (JsString "2023-05-01")) sender w
  = (Spec.answered w (failure "GitHub sync is not configured in extension options"),
     inr tt) /\
  calls (Spec.answered w (failure "GitHub sync is not configured in extension options"))
  = [] /\
  handleFrontendUpdateManualReadStatus Samples.URL_new "alice/papers"
    (Some Samples.scripted)
    (Samples.read_message "   " (JsString "05-01-2023")) sender w
  = (Spec.answered w (failure "Invalid paper key"), inr tt).
Proof. cbv zeta. repeat split. Qed.

(** C5.  A delete request that passes the trust and key checks and whose
    paper record is archived answers [{success: true}] even when the
    attempt to archive the interaction-log record throws: the error is
    logged as a warning.  Archiving the paper record is the lookup of its
    issue followed by two requests on that issue, the [archived] label and
    the state [closed]; nothing is erased. *)
Theorem delete_survives_interaction_log_failure
    (Store : Type) (URL_new : string -> option URL) (githubRepo : string)
    (client : GitHubStoreClient Store)
    (message : Message) (sender : MessageSender)
    (w w1 w2 : World Store) (interactionsKey : string) (e : Thrown) :
  isTrustedFrontendUrl URL_new githubRepo (sender_url sender) = true ->
  normalized_key message <> "" ->
  archiveObjectById client (normalized_key message) w = (w1, inr true) ->
  toInteractionObjectId (normalized_key message) = Some interactionsKey ->
  archiveObjectById client interactionsKey w1 = (w2, inl e) ->
  let run :=
    handleFrontendDeletePaper URL_new githubRepo (Some client) message sender w in
  snd run = inr tt /\
  responses (fst run) = (responses w ++ [ok_response])%list /\
  logs (fst run) =
    (logs w2 ++
     [ LogWarn ("Failed to archive interaction log for " ++ interactionsKey) e;
       LogInfo ("Archived paper " ++ normalized_key message ++ " from frontend")
         (JsObject [("sender", of_option_string (sender_url sender))]) ])%list /\
  store (fst run) = store w2 /\ calls (fst run) = calls w2 /\
  exists n, n <> 0%N /\
    calls w1 = (calls w ++ Spec.archive_calls (normalized_key message) n)%list.
Proof.
  intros Htrust Hkey Hpaper Hikey Hlog run.
  destruct (archiveObjectById_true _ _ _ Hpaper) as (n & Hn & C1 & L1 & R1).
  destruct (archiveObjectById_frame _ _ _ Hlog) as (L2 & R2).
  assert (run =
          ({| store := store w2; calls := calls w2;
              logs :=
                ((logs w2 ++
                  [LogWarn ("Failed to archive interaction log for " ++ interactionsKey) e])
                 ++ [LogInfo ("Archived paper " ++ normalized_key message ++ " from frontend")
                       (JsObject [("sender", of_option_string (sender_url sender))])])%list;
              responses := (responses w2 ++ [ok_response])%list |}, inr tt)) as E.
  { subst run. unfold handleFrontendDeletePaper.
    rewrite Htrust. apply is_empty_false in Hkey. rewrite Hkey. cbn [negb].
    unfold try_catch, bind. rewrite Hpaper. cbn [negb]. rewrite Hikey, Hlog.
    reflexivity. }
  rewrite E. cbn [fst snd store calls logs responses].
  rewrite R2, R1, <- app_assoc.
  repeat split. exists n. auto.
Qed.

Lemma delete_survives_interaction_log_failure_witness :
  let w := Samples.fresh
             [Samples.found 7; Samples.done; Samples.done;
              inl (ErrorObject "rate limit exceeded")] in
  let run :=
    handleFrontendDeletePaper Samples.URL_new "alice/papers" (Some Samples.scripted)
      (Samples.key_message "paper:arxiv.2301.00001")
      (Samples.from "https://alice.github.io/papers/") w in
  responses (fst run) = [ok_response] /\
  logs (fst run) =
    [ LogWarn "Failed to archive interaction log for interactions:arxiv.2301.00001"
        (ErrorObject "rate limit exceeded");
      LogInfo "Archived paper paper:arxiv.2301.00001 from frontend"
        (JsObject [("sender", JsString "https://alice.github.io/papers/")]) ] /\
  calls (fst run) =
    (Spec.archive_calls "paper:arxiv.2301.00001" 7
     ++ [Spec.lookup_call "interactions:arxiv.2301.00001"])%list.
Proof.
  cbv zeta.
  pose proof
    (@delete_survives_interaction_log_failure Samples.Script Samples.URL_new
       "alice/papers" Samples.scripted
       (Samples.key_message "paper:arxiv.2301.00001")
       (Samples.from "https://alice.github.io/papers/")
       (Samples.fresh [Samples.found 7; Samples.done; Samples.done;
                       inl (ErrorObject "rate limit exceeded")])
       {| store := [inl (ErrorObject "rate limit exceeded")];
          calls := Spec.archive_calls "paper:arxiv.2301.00001" 7;
          logs := []; responses := [] |}
       {| store := [];
          calls := (Spec.archive_calls "paper:arxiv.2301.00001" 7
                    ++ [Spec.lookup_call "interactions:arxiv.2301.00001"])%list;
          logs := []; responses := [] |}
       "interactions:arxiv.2301.00001" (ErrorObject "rate limit exceeded")
       eq_refl ltac:(discriminate) eq_refl eq_refl eq_refl)
    as (_ & R & L & _ & C & _).
  split; [exact R|]. split; [exact L | exact C].
Defined.

(** C10.  For a trusted sender and a key that is not empty once trimmed,
    when the lookup finds no issue for the key the handler answers
    [{success: false, error: "Paper not found in store"}]; the lookup of
    the paper key is the only call made on the store client, so the
    interaction-log record is never looked up, labelled or closed. *)
Theorem delete_of_unknown_paper
    (Store : Type) (URL_new : string -> option URL) (githubRepo : string)
    (client : GitHubStoreClient Store)
    (message : Message) (sender : MessageSender)
    (w w1 : World Store) (issueNumber : option N) :
  isTrustedFrontendUrl URL_new githubRepo (sender_url sender) = true ->
  normalized_key message <> "" ->
  findIssueNumberForObject client (normalized_key message) w = (w1, inr issueNumber) ->
  no_issue issueNumber = true ->
  let run :=
    handleFrontendDeletePaper URL_new githubRepo (Some client) message sender w in
  run = (Spec.answered w1 (failure "Paper not found in store"), inr tt) /\
  responses (fst run) = (responses w ++ [failure "Paper not found in store"])%list /\
  calls (fst run) = (calls w ++ [Spec.lookup_call (normalized_key message)])%list.
Proof.
  intros Htrust Hkey Hfind Hnone run. subst run.
  unfold handleFrontendDeletePaper.
  rewrite Htrust. apply is_empty_false in Hkey. rewrite Hkey. cbn [negb].
  unfold try_catch, bind.
  rewrite (archiveObjectById_none _ _ _ Hfind Hnone). cbn [negb].
  apply findIssueNumberForObject_frame in Hfind as (C & L & R).
  simpl. split; [reflexivity|]. rewrite R, C. auto.
Qed.

Lemma delete_of_unknown_paper_witness :
  let w := Samples.fresh [inr (Some [])] in
  let run :=
    handleFrontendDeletePaper Samples.URL_new "alice/papers" (Some Samples.scripted)
      (Samples.key_message "paper:arxiv.2301.00001")
      (Samples.from "https://alice.github.io/papers/") w in
  toInteractionObjectId "paper:arxiv.2301.00001" = Some "interactions:arxiv.2301.00001" /\
  responses (fst run) = [failure "Paper not found in store"] /\
  calls (fst run) = [Spec.lookup_call "paper:arxiv.2301.00001"].
Proof.
  cbv zeta. split; [reflexivity|].
  pose proof
    (@delete_of_unknown_paper Samples.Script Samples.URL_new "alice/papers"
       Samples.scripted
       (Samples.key_message "paper:arxiv.2301.00001")
       (Samples.from "https://alice.github.io/papers/")
       (Samples.fresh [inr (Some [])])
       {| store := []; calls := [Spec.lookup_call "paper:arxiv.2301.00001"];
          logs := []; responses := [] |}
       None eq_refl ltac:(discriminate) eq_refl eq_refl)
    as (_ & R & C).
  split; [exact R | exact C].
Defined.

(** ** Authors *)

Lemma push_contents_app (xs ys : list Dom.Elem) :
  push_contents (xs ++ ys) = (push_contents xs ++ push_contents ys)%list.
Proof. unfold push_contents. apply flat_map_app. Qed.

(** Whether an element is selected by [meta[name="citation_author"]] does
    not depend on its ancestors. *)
Lemma selects_citation_author (e : Dom.Elem) (ancestors : list Dom.Elem) :
  existsb (fun cx => Dom.matches_complex cx (e, ancestors))
          (Dom.tag_with "meta" "name" "citation_author")
  = String.eqb "meta" (Dom.tagName e)
    && match Dom.lookup "name" (Dom.attributes e) with
       | Some v => String.eqb v "citation_author"
       | None => false
       end.
Proof.
  unfold Dom.tag_with, Dom.matches_complex, Dom.matches_compound, Dom.has_attr,
    Dom.getAttribute.
  cbn [existsb rev app fst snd Dom.sel_tag Dom.sel_classes Dom.sel_attrs
       forallb Dom.match_ancestors].
  rewrite !andb_true_r, orb_false_r.
  destruct ancestors; cbn [Dom.match_ancestors]; rewrite andb_true_r; reflexivity.
Qed.

Lemma authors_of_element (t : string) (a : list (string * string))
    (cs : list Dom.Node) (ancestors : list Dom.Elem) :
  let e := {| Dom.tagName := t; Dom.attributes := a; Dom.childNodes := cs |} in
  push_contents
    (map fst
       (filter (fun ea => existsb (fun cx => Dom.matches_complex cx ea)
                            (Dom.tag_with "meta" "name" "citation_author"))
          [(e, ancestors)]))
  = Spec.author_of t a.
Proof.
  intros e. cbn [filter]. rewrite selects_citation_author.
  unfold Spec.author_of. subst e. cbn [Dom.tagName Dom.attributes].
  rewrite (String.eqb_sym t "meta").
  destruct (String.eqb "meta" t); [|reflexivity].
  destruct (Dom.lookup "name" a) as [v|]; [|reflexivity].
  cbn [andb]. destruct (String.eqb v "citation_author"); [|reflexivity].
  cbn [map fst push_contents flat_map]. unfold Dom.getAttribute.
  cbn [Dom.attributes]. rewrite app_nil_r. reflexivity.
Qed.

(** The selector engine and the plain walk over the tree find the same
    authors in the same order. *)
Lemma authors_of_node (n : Dom.Node) :
  forall ancestors,
    push_contents
      (map fst
         (filter (fun ea => existsb (fun cx => Dom.matches_complex cx ea)
                              (Dom.tag_with "meta" "name" "citation_author"))
            (Dom.elements_of ancestors n)))
    = Spec.authors_in n.
Proof.
  induction n as [d | t a cs IH] using Dom.Node_tree_ind; intros ancestors.
  - reflexivity.
  - cbn [Dom.elements_of Spec.authors_in].
    change (?x :: ?l) with ([x] ++ l)%list at 1.
    rewrite filter_app, map_app, push_contents_app, authors_of_element.
    f_equal.
    set (e := {| Dom.tagName := t; Dom.attributes := a; Dom.childNodes := cs |}).
    generalize (e :: ancestors). intros anc.
    induction IH as [|c cs Hc _ IHcs]; [reflexivity|].
    cbn [flat_map].
    rewrite filter_app, map_app, push_contents_app, Hc, IHcs. reflexivity.
Qed.

Lemma authors_of_document (doc : Dom.Document) :
  push_contents
    (Dom.querySelectorAll doc (Dom.tag_with "meta" "name" "citation_author"))
  = Spec.citation_authors doc.
Proof.
  unfold Dom.querySelectorAll, Dom.elements, Spec.citation_authors.
  induction doc as [|n doc IH]; [reflexivity|].
  cbn [flat_map].
  rewrite filter_app, map_app, push_contents_app, authors_of_node, IH. reflexivity.
Qed.

Lemma extractAuthors_some (base : MetadataExtractor) (doc : Dom.Document) :
  Spec.citation_authors doc <> [] ->
  AclAnthology.extractAuthors base doc = Js.join ", " (Spec.citation_authors doc) /\
  Ieee.extractAuthors base doc = Js.join ", " (Spec.citation_authors doc) /\
  Nber.extractAuthors base doc = Js.join ", " (Spec.citation_authors doc).
Proof.
  intros H.
  unfold AclAnthology.extractAuthors, Ieee.extractAuthors, Nber.extractAuthors.
  rewrite authors_of_document.
  destruct (Spec.citation_authors doc) as [|a l]; [congruence|].
  cbn [List.length Nat.ltb Nat.leb]. auto.
Qed.

(** C6.  On a document with several [meta[name="citation_author"]] tags
    of non-empty content, [extractAuthors] of the ACL Anthology, IEEE and
    NBER extractors returns all those contents, in document order, joined
    by [", "]. *)
Theorem extractAuthors_joins_all_authors
    (base : MetadataExtractor) (doc : Dom.Document) :
  (1 < List.length (Spec.citation_authors doc))%nat ->
  AclAnthology.extractAuthors base doc = Js.join ", " (Spec.citation_authors doc) /\
  Ieee.extractAuthors base doc = Js.join ", " (Spec.citation_authors doc) /\
  Nber.extractAuthors base doc = Js.join ", " (Spec.citation_authors doc).
Proof.
  intros H. apply extractAuthors_some.
  destruct (Spec.citation_authors doc); [simpl in H; lia | discriminate].
Qed.

Lemma extractAuthors_joins_all_authors_witness :
  let doc := Samples.page [ Samples.meta "citation_title" "On Parsing";
                            Samples.meta "citation_author" "A. Smith";
                            Samples.meta "citation_author" "B. Lee" ] in
  Spec.citation_authors doc = ["A. Smith"; "B. Lee"] /\
  AclAnthology.extractAuthors Samples.plain_base doc = "A. Smith, B. Lee" /\
  Ieee.extractAuthors Samples.plain_base doc = "A. Smith, B. Lee" /\
  Nber.extractAuthors Samples.plain_base doc = "A. Smith, B. Lee".
Proof.
  cbv zeta. split; [reflexivity|].
  apply (@extractAuthors_joins_all_authors Samples.plain_base
           (Samples.page [ Samples.meta "citation_title" "On Parsing";
                           Samples.meta "citation_author" "A. Smith";
                           Samples.meta "citation_author" "B. Lee" ])).
  simpl. lia.
Defined.

(** ** Tags *)

Lemma no_empty_after_filter (l : list string) :
  ~ In "" (filter (fun t => negb (Js.is_empty t)) l).
Proof.
  intros H. apply filter_In in H as (_ & H). discriminate H.
Qed.

(** The IEEE and the newspapers extractors drop the empty tokens. *)
Lemma extractTags_filtered (base : MetadataExtractor) (doc : Dom.Document) :
  ~ In "" (Ieee.extractTags base doc) /\ ~ In "" (Newspapers.extractTags base doc).
Proof.
  unfold Ieee.extractTags, Newspapers.extractTags, Newspapers.split_tags.
  split.
  - match goal with
    | |- context [if negb (Js.is_empty ?k) then filter _ _ else _] =>
        destruct (negb (Js.is_empty k))
    end; [apply no_empty_after_filter | intros []].
  - repeat match goal with
      | |- context [if negb (Js.is_empty ?k) then filter _ _ else _] =>
          destruct (negb (Js.is_empty k))
      end; try apply no_empty_after_filter; intros [].
Qed.

(** C7 fails on the code.  Whatever the base extractor, on a document
    whose keywords content is ["nlp, , parsing"] the ACL Anthology and the
    NBER extractor, which map [trim] over the pieces and keep every piece,
    return an empty tag between the two others; the IEEE and the
    newspapers extractor, which filter after trimming, return no empty
    tag. *)
Theorem extractTags_keeps_empty_tokens
    (base : MetadataExtractor) (doc : Dom.Document) :
  getMetaContent base doc (Dom.tag_with "meta" "name" "keywords") = "nlp, , parsing" ->
  AclAnthology.extractTags base doc = ["nlp"; ""; "parsing"] /\
  Nber.extractTags base doc = ["nlp"; ""; "parsing"] /\
  ~ In "" (Ieee.extractTags base doc) /\
  ~ In "" (Newspapers.extractTags base doc).
Proof.
  intros H. unfold AclAnthology.extractTags, Nber.extractTags.
  rewrite H. split; [reflexivity|]. split; [reflexivity|].
  apply extractTags_filtered.
Qed.

Lemma extractTags_keeps_empty_tokens_witness :
  let doc := Samples.page [Samples.meta "keywords" "nlp, , parsing"] in
  (AclAnthology.extractTags Samples.plain_base doc = ["nlp"; ""; "parsing"] /\
   Nber.extractTags Samples.plain_base doc = ["nlp"; ""; "parsing"] /\
   ~ In "" (Ieee.extractTags Samples.plain_base doc) /\
   ~ In "" (Newspapers.extractTags Samples.plain_base doc)) /\
  Ieee.extractTags Samples.plain_base doc = ["nlp"; "parsing"] /\
  Newspapers.extractTags Samples.plain_base doc = ["nlp"; "parsing"].
Proof.
  cbv zeta. split; [|split; reflexivity].
  apply (@extractTags_keeps_empty_tokens Samples.plain_base
           (Samples.page [Samples.meta "keywords" "nlp, , parsing"])).
  reflexivity.
Defined.

(** ** Paper ids and the trailing slash *)

Lemma length_app (a b : string) :
  String.length (a ++ b) = String.length a + String.length b.
Proof. induction a as [|c a IH]; simpl; [reflexivity | rewrite IH; reflexivity]. Qed.

Lemma take_app (n : nat) (g x : string) :
  n <= String.length g -> Regex.take n (g ++ x) = Regex.take n g.
Proof.
  revert g. induction n as [|n IH]; intros g H.
  - destruct g, x; reflexivity.
  - destruct g as [|c g]; simpl in H; [lia|].
    simpl. rewrite IH; [reflexivity | lia].
Qed.





Lemma first_group_flat_map {A} (f : A -> list Regex.mstate)
    (h : A -> option string) (l : list A) :
  (forall x, exists y ys, f x = y :: ys /\ Regex.group1 y = h x) ->
  Regex.first_group (flat_map f l) = option_map h (hd_error l).
Proof.
  intros H. destruct l as [|x l]; [reflexivity|].
  destruct (H x) as (y & ys & E & G).
  unfold Regex.first_group. cbn [flat_map]. rewrite E. simpl. rewrite G. reflexivity.
Qed.

(** The tails [class+)] and [class+)\/?] of the patterns take the longest
    run of the class; the group is the text from the open parenthesis to
    the end of that run. *)
Lemma first_group_Plus_Close (p : ascii -> bool) (tail : Regex.regex)
    (st : Regex.mstate) (g : string) :
  Regex.gopen st = Some g ->
  tail = [] \/ (exists q, tail = [Regex.Opt q]) ->
  Regex.first_group (Regex.run (Regex.Plus p :: Regex.Close :: tail) st)
  = option_map
      (fun s' => Some (Regex.take (String.length g - String.length s') g))
      (hd_error (Regex.plus_rests p (Regex.rest st))).
Proof.
  intros Hg Htail. rewrite run_Plus.
  apply first_group_flat_map. intros s'.
  rewrite (@run_Close tail (Regex.advance st s') g Hg).
  cbn [Regex.advance Regex.rest Regex.pos].
  destruct Htail as [-> | (q & ->)].
  - cbn [Regex.run]. eauto.
  - rewrite run_Opt. cbn [Regex.run Regex.rest].
    destruct s' as [|c s'']; [eauto|].
    destruct (q c); cbn [app]; eauto.
Qed.


(** *** What is left of each pattern after its literal *)




(** *** Blindness to a final slash, item by item *)

Lemma advance_start (s s' : string) (i : nat) :
  Regex.advance (Regex.start s i) s'
  = Regex.start s' (i + (String.length s - String.length s')).
Proof. reflexivity. Qed.












(** *** The patterns of the integrations *)







(* ================================================================== *)
(** * Part III.  Further properties of the code *)
(* ================================================================== *)

(** ** The frontend handlers on every path *)

Lemma bad_manuallyRead_false (v : JsValue) :
  bad_manuallyRead (nullish_to_null v) = false -> Spec.well_formed_read v.
Proof.
  unfold Spec.well_formed_read.
  destruct v; simpl; try discriminate; auto.
  rewrite READ_DATE_PATTERN_strict. intros H. right. right.
  exists s. split; [reflexivity|].
  destruct (Spec.is_yyyy_mm_dd s); [reflexivity | discriminate].
Qed.


Lemma update_handler_result
    (Store : Type) (URL_new : string -> option URL) (githubRepo : string)
    (paperManager : option (GitHubStoreClient Store))
    (message : Message) (sender : MessageSender) (w w' : World Store) r :
  handleFrontendUpdateManualReadStatus URL_new githubRepo paperManager
    message sender w = (w', r) ->
  r = inr tt /\ exists answer, responses w' = (responses w ++ [answer])%list.
Proof.
  unfold handleFrontendUpdateManualReadStatus.
  destruct (negb _); [intros H; inversion H; simpl; eauto|].
  destruct (Js.is_empty _); [intros H; inversion H; simpl; eauto|].
  destruct (bad_manuallyRead _); [intros H; inversion H; simpl; eauto|].
  destruct paperManager as [client|]; [|intros H; inversion H; simpl; eauto].
  unfold try_catch, bind.
  match goal with
  | |- context [call_updateObject client ?k ?d w] =>
      destruct (call_updateObject client k d w) as [w1 [e | []]] eqn:E
  end;
    apply call_updateObject_frame in E as (_ & _ & R);
    intros H; inversion H; simpl; rewrite R; eauto.
Qed.

Lemma delete_handler_result
    (Store : Type) (URL_new : string -> option URL) (githubRepo : string)
    (paperManager : option (GitHubStoreClient Store))
    (message : Message) (sender : MessageSender) (w w' : World Store) r :
  handleFrontendDeletePaper URL_new githubRepo paperManager message sender w
    = (w', r) ->
  r = inr tt /\ exists answer, responses w' = (responses w ++ [answer])%list.
Proof.
  unfold handleFrontendDeletePaper.
  destruct (negb _); [intros H; inversion H; simpl; eauto|].
  destruct (Js.is_empty _); [intros H; inversion H; simpl; eauto|].
  destruct paperManager as [client|]; [|intros H; inversion H; simpl; eauto].
  unfold try_catch at 1. unfold bind at 1.
  destruct (archiveObjectById client (normalized_key message) w)
    as [w1 [e | archived]] eqn:E1;
    apply archiveObjectById_frame in E1 as (_ & R1).
  - intros H. inversion H. simpl. rewrite R1. eauto.
  - destruct archived; cbn [negb].
    + destruct (toInteractionObjectId (normalized_key message)) as [ikey|].
      * unfold bind at 1. unfold try_catch at 1. unfold bind at 1.
        destruct (archiveObjectById client ikey w1) as [w2 [e2 | a2]] eqn:E2;
          apply archiveObjectById_frame in E2 as (_ & R2);
          intros H; inversion H; simpl; rewrite R2, R1; eauto.
      * intros H. inversion H. simpl. rewrite R1. eauto.
    + intros H. inversion H. simpl. rewrite R1. eauto.
Qed.

(** X1.  Provided every request to the store settles, by resolving or
    by rejecting (the client of the embedding has no other outcome; a
    promise that never settles is outside it), each of the two frontend
    handlers ends without throwing and has sent exactly one response,
    whatever the message, the sender, the configuration and the outcome
    of each request: no path of a handler answers twice or not at all. *)
Theorem frontend_handlers_answer_once
    (Store : Type) (URL_new : string -> option URL) (githubRepo : string)
    (paperManager : option (GitHubStoreClient Store))
    (message : Message) (sender : MessageSender) (w : World Store) :
  (let run :=
     handleFrontendUpdateManualReadStatus URL_new githubRepo paperManager
       message sender w in
   snd run = inr tt /\
   exists answer, responses (fst run) = (responses w ++ [answer])%list) /\
  (let run :=
     handleFrontendDeletePaper URL_new githubRepo paperManager message sender w in
   snd run = inr tt /\
   exists answer, responses (fst run) = (responses w ++ [answer])%list).
Proof.
  split; cbv zeta.
  - destruct (handleFrontendUpdateManualReadStatus URL_new githubRepo paperManager
                message sender w) as [w' r] eqn:E.
    exact (update_handler_result _ _ _ _ _ _ E).
  - destruct (handleFrontendDeletePaper URL_new githubRepo paperManager
                message sender w) as [w' r] eqn:E.
    exact (delete_handler_result _ _ _ _ _ _ E).
Qed.

Lemma one_more_inv {A} (l : list A) (a b : A) :
  (l ++ [a])%list = (l ++ [b])%list -> a = b.
Proof. intros H. apply app_inj_tail in H. tauto. Qed.

Lemma update_handler_cases
    (Store : Type) (URL_new : string -> option URL) (githubRepo : string)
    (paperManager : option (GitHubStoreClient Store))
    (message : Message) (sender : MessageSender) (w w' : World Store) r :
  handleFrontendUpdateManualReadStatus URL_new githubRepo paperManager
    message sender w = (w', r) ->
  (calls w' = calls w /\ store w' = store w /\
   exists msg, responses w' = (responses w ++ [failure msg])%list)
  \/
  (exists client,
      paperManager = Some client /\
      isTrustedFrontendUrl URL_new githubRepo (sender_url sender) = true /\
      normalized_key message <> "" /\
      Spec.well_formed_read (manuallyRead message) /\
      let data := JsObject [("manuallyRead", nullish_to_null (manuallyRead message))] in
      let update := updateObject client (normalized_key message) data (store w) in
      calls w' = (calls w ++ [CallUpdateObject (normalized_key message) data])%list /\
      store w' = fst update /\
      responses w' =
        (responses w ++
         [match snd update with
          | inr _ => ok_response
          | inl e => failure (error_message e)
          end])%list).
Proof.
  unfold handleFrontendUpdateManualReadStatus.
  destruct (isTrustedFrontendUrl URL_new githubRepo (sender_url sender)) eqn:Ht;
    cbn [negb]; [|intros H; inversion H; left; simpl; eauto].
  destruct (Js.is_empty (normalized_key message)) eqn:Hk;
    [intros H; inversion H; left; simpl; eauto|].
  destruct (bad_manuallyRead _) eqn:Hv; [intros H; inversion H; left; simpl; eauto|].
  destruct paperManager as [client|]; [|intros H; inversion H; left; simpl; eauto].
  intros H. right. exists client.
  split; [reflexivity|]. split; [reflexivity|].
  split; [apply is_empty_false; exact Hk|].
  split; [apply bad_manuallyRead_false; exact Hv|].
  cbv zeta. revert H.
  unfold try_catch, bind, call_updateObject. cbn [record_call store].
  destruct (updateObject client (normalized_key message) _ (store w)) as [s' [e | []]];
    intros H; inversion H; simpl; auto.
Qed.

(** X2.  The manual-read handler touches the store only after all of its
    checks have passed: either it makes no call, leaves the store as it
    was and answers a failure, or the sender is trusted, the key is not
    empty, the date is well-formed and a paper manager is configured, and
    then it makes the one [updateObject] call for the key and answers
    success if that call resolves and the error's message if it is
    rejected. *)
Theorem update_touches_store_only_when_admitted
    (Store : Type) (URL_new : string -> option URL) (githubRepo : string)
    (paperManager : option (GitHubStoreClient Store))
    (message : Message) (sender : MessageSender) (w : World Store) :
  let run :=
    handleFrontendUpdateManualReadStatus URL_new githubRepo paperManager
      message sender w in
  (calls (fst run) = calls w /\ store (fst run) = store w /\
   exists msg, responses (fst run) = (responses w ++ [failure msg])%list)
  \/
  (exists client,
      paperManager = Some client /\
      isTrustedFrontendUrl URL_new githubRepo (sender_url sender) = true /\
      normalized_key message <> "" /\
      Spec.well_formed_read (manuallyRead message) /\
      let data := JsObject [("manuallyRead", nullish_to_null (manuallyRead message))] in
      let update := updateObject client (normalized_key message) data (store w) in
      calls (fst run) =
        (calls w ++ [CallUpdateObject (normalized_key message) data])%list /\
      store (fst run) = fst update /\
      responses (fst run) =
        (responses w ++
         [match snd update with
          | inr _ => ok_response
          | inl e => failure (error_message e)
          end])%list).
Proof.
  cbv zeta.
  destruct (handleFrontendUpdateManualReadStatus URL_new githubRepo paperManager
              message sender w) as [w' r] eqn:E.
  exact (update_handler_cases _ _ _ _ _ _ E).
Qed.


Lemma delete_handler_cases
    (Store : Type) (URL_new : string -> option URL) (githubRepo : string)
    (paperManager : option (GitHubStoreClient Store))
    (message : Message) (sender : MessageSender) (w w' : World Store) r :
  handleFrontendDeletePaper URL_new githubRepo paperManager message sender w
    = (w', r) ->
  ((isTrustedFrontendUrl URL_new githubRepo (sender_url sender) = false
    \/ normalized_key message = "" \/ paperManager = None) /\
   calls w' = calls w /\ store w' = store w /\
   exists msg, responses w' = (responses w ++ [failure msg])%list)
  \/
  (exists client w1 r1,
      paperManager = Some client /\
      isTrustedFrontendUrl URL_new githubRepo (sender_url sender) = true /\
      normalized_key message <> "" /\
      archiveObjectById client (normalized_key message) w = (w1, r1) /\
      match r1 with
      | inl e =>
          w' = {| store := store w1; calls := calls w1;
                  logs := (logs w1 ++
                           [LogError "Error deleting paper from frontend" e])%list;
                  responses := (responses w1 ++ [failure (error_message e)])%list |}
      | inr false => w' = Spec.answered w1 (failure "Paper not found in store")
      | inr true =>
          responses w' = (responses w ++ [ok_response])%list /\
          match toInteractionObjectId (normalized_key message) with
          | None => calls w' = calls w1 /\ store w' = store w1
          | Some interactionsKey =>
              calls w' = calls (fst (archiveObjectById client interactionsKey w1)) /\
              store w' = store (fst (archiveObjectById client interactionsKey w1))
          end
      end).
Proof.
  unfold handleFrontendDeletePaper.
  destruct (isTrustedFrontendUrl URL_new githubRepo (sender_url sender)) eqn:Ht;
    cbn [negb]; [|intros H; inversion H; left; simpl; eauto 10].
  destruct (Js.is_empty (normalized_key message)) eqn:Hk.
  { intros H. inversion H. left. apply is_empty_true in Hk. simpl. eauto 10. }
  destruct paperManager as [client|]; [|intros H; inversion H; left; simpl; eauto 10].
  apply is_empty_false in Hk.
  unfold try_catch at 1. unfold bind at 1.
  destruct (archiveObjectById client (normalized_key message) w)
    as [w1 [e | archived]] eqn:E1.
  - intros H. inversion H. right. exists client, w1, (inl e). auto 10.
  - destruct (archiveObjectById_frame _ _ _ E1) as (_ & R1).
    destruct archived; cbn [negb].
    + intros H. right. exists client, w1, (inr true).
      split; [reflexivity|]. split; [reflexivity|]. split; [exact Hk|].
      split; [exact E1|]. revert H.
      destruct (toInteractionObjectId (normalized_key message)) as [ikey|].
      * unfold bind at 1. unfold try_catch at 1. unfold bind at 1.
        destruct (archiveObjectById client ikey w1) as [w2 [e2 | a2]] eqn:E2;
          destruct (archiveObjectById_frame _ _ _ E2) as (_ & R2);
          intros H; inversion H; simpl; rewrite R2, R1; auto.
      * intros H. inversion H. simpl. rewrite R1. auto.
    + intros H. inversion H. right. exists client, w1, (inr false). auto 10.
Qed.


(** X5.  The delete handler answers [{success: true}] exactly when the
    sender is trusted, the key is not empty, a paper manager is configured
    and the archive of the paper record itself returned [true]; what
    happens to the interaction-log record (archived, not found, or an
    error) has no influence on the answer. *)
Theorem delete_succeeds_iff_paper_archived
    (Store : Type) (URL_new : string -> option URL) (githubRepo : string)
    (paperManager : option (GitHubStoreClient Store))
    (message : Message) (sender : MessageSender) (w : World Store) :
  let run :=
    handleFrontendDeletePaper URL_new githubRepo paperManager message sender w in
  responses (fst run) = (responses w ++ [ok_response])%list
  <->
  (isTrustedFrontendUrl URL_new githubRepo (sender_url sender) = true /\
   normalized_key message <> "" /\
   exists client,
     paperManager = Some client /\
     snd (archiveObjectById client (normalized_key message) w) = inr true).
Proof.
  cbv zeta.
  destruct (handleFrontendDeletePaper URL_new githubRepo paperManager
              message sender w) as [w' r] eqn:E.
  cbn [fst].
  destruct (delete_handler_cases _ _ _ _ _ _ E)
    as [(Hwhy & _ & _ & msg & R) | (client & w1 & r1 & -> & Ht & Hk & E1 & H)].
  - split.
    + intros R'. rewrite R in R'. apply one_more_inv in R'. discriminate R'.
    + intros (Ht & Hk & client & Hpm & _).
      destruct Hwhy as [Hwhy | [Hwhy | Hwhy]]; congruence.
  - destruct (archiveObjectById_frame _ _ _ E1) as (_ & R1).
    split.
    + intros R'. split; [exact Ht|]. split; [exact Hk|].
      exists client. split; [reflexivity|]. rewrite E1. cbn [snd].
      destruct r1 as [e | [|]]; [|reflexivity|]; subst w'; simpl in R';
        rewrite R1 in R'; apply one_more_inv in R'; discriminate R'.
    + intros (_ & _ & client' & Hc & Ha). inversion Hc. subst client'.
      rewrite E1 in Ha. cbn [snd] in Ha. subst r1. apply H.
Qed.

(** X6.  When the archive of the paper record throws, the handler logs
    the error, answers a failure that carries the error's message
    ("Unknown error" when what was thrown is no [Error]), and makes no
    request about the interaction-log record. *)
Theorem delete_reports_archive_error
    (Store : Type) (URL_new : string -> option URL) (githubRepo : string)
    (client : GitHubStoreClient Store)
    (message : Message) (sender : MessageSender)
    (w w1 : World Store) (e : Thrown) :
  isTrustedFrontendUrl URL_new githubRepo (sender_url sender) = true ->
  normalized_key message <> "" ->
  archiveObjectById client (normalized_key message) w = (w1, inl e) ->
  handleFrontendDeletePaper URL_new githubRepo (Some client) message sender w
  = ({| store := store w1; calls := calls w1;
        logs := (logs w ++ [LogError "Error deleting paper from frontend" e])%list;
        responses := (responses w ++ [failure (error_message e)])%list |},
     inr tt).
Proof.
  intros Ht Hk E1.
  destruct (archiveObjectById_frame _ _ _ E1) as (L1 & R1).
  unfold handleFrontendDeletePaper.
  rewrite Ht. apply is_empty_false in Hk. rewrite Hk. cbn [negb].
  unfold try_catch, bind. rewrite E1. simpl. rewrite L1, R1. reflexivity.
Qed.

Lemma delete_reports_archive_error_witness :
  let w := Samples.fresh [Samples.found 7; inl OtherThrown] in
  handleFrontendDeletePaper Samples.URL_new "alice/papers" (Some Samples.scripted)
    (Samples.key_message "paper:arxiv.2301.00001")
    (Samples.from "https://alice.github.io/papers/") w
  = ({| store := [];
        calls := firstn 2 (Spec.archive_calls "paper:arxiv.2301.00001" 7);
        logs := [LogError "Error deleting paper from frontend" OtherThrown];
        responses := [failure "Unknown error"] |}, inr tt).
Proof.
  cbv zeta.
  exact (@delete_reports_archive_error Samples.Script Samples.URL_new "alice/papers"
           Samples.scripted
           (Samples.key_message "paper:arxiv.2301.00001")
           (Samples.from "https://alice.github.io/papers/")
           (Samples.fresh [Samples.found 7; inl OtherThrown])
           {| store := [];
              calls := firstn 2 (Spec.archive_calls "paper:arxiv.2301.00001" 7);
              logs := []; responses := [] |}
           OtherThrown eq_refl ltac:(discriminate) eq_refl).
Defined.

(** ** Interaction keys *)

Lemma append_cancel (p a b : string) : p ++ a = p ++ b -> a = b.
Proof.
  induction p as [|c p IH]; simpl; intros H; [exact H|].
  inversion H. auto.
Qed.

Lemma toInteractionObjectId_inv (paperKey i : string) :
  toInteractionObjectId paperKey = Some i ->
  exists id, (paperKey = "paper:" ++ id /\ i = "interactions:" ++ id)
             \/ (paperKey = "paper." ++ id /\ i = "interactions." ++ id).
Proof.
  unfold toInteractionObjectId.
  destruct (Js.startsWith paperKey "paper:") eqn:E1.
  - apply startsWith_inv in E1 as (id & ->). rewrite slice_app.
    intros H. inversion H. eauto.
  - destruct (Js.startsWith paperKey "paper.") eqn:E2; [|discriminate].
    apply startsWith_inv in E2 as (id & ->). rewrite slice_app.
    intros H. inversion H. eauto.
Qed.

(** X7.  Two paper keys never share an interaction-log key, and an
    interaction-log key is never itself a paper key: it has no
    interaction-log key of its own and differs from the key it comes
    from. *)
Theorem toInteractionObjectId_injective (k1 k2 i : string) :
  toInteractionObjectId k1 = Some i ->
  (toInteractionObjectId k2 = Some i -> k1 = k2) /\
  toInteractionObjectId i = None /\
  i <> k1.
Proof.
  intros H1. destruct (toInteractionObjectId_inv _ H1) as (id1 & [(-> & ->) | (-> & ->)]).
  - split; [|split; [reflexivity | discriminate]].
    intros H2. destruct (toInteractionObjectId_inv _ H2) as (id2 & [(-> & E) | (-> & E)]).
    + apply (append_cancel "interactions:") in E. congruence.
    + discriminate E.
  - split; [|split; [reflexivity | discriminate]].
    intros H2. destruct (toInteractionObjectId_inv _ H2) as (id2 & [(-> & E) | (-> & E)]).
    + discriminate E.
    + apply (append_cancel "interactions.") in E. congruence.
Qed.

Lemma toInteractionObjectId_injective_witness :
  (toInteractionObjectId "paper:arxiv.2301.00001"
     = Some "interactions:arxiv.2301.00001" -> "paper:arxiv.2301.00001" = "paper:arxiv.2301.00001") /\
  toInteractionObjectId "interactions:arxiv.2301.00001" = None /\
  "interactions:arxiv.2301.00001" <> "paper:arxiv.2301.00001".
Proof.
  exact (@toInteractionObjectId_injective "paper:arxiv.2301.00001"
           "paper:arxiv.2301.00001" "interactions:arxiv.2301.00001" eq_refl).
Defined.

(** ** The trust check and the configured repository *)

Lemma toLowerCase_app (a b : string) :
  Js.toLowerCase (a ++ b) = Js.toLowerCase a ++ Js.toLowerCase b.
Proof. induction a as [|c a IH]; simpl; [reflexivity | rewrite IH; reflexivity]. Qed.

Lemma lower_char_slash (c : ascii) : Js.lower_char c = "/"%char -> c = "/"%char.
Proof.
  destruct c as [[] [] [] [] [] [] [] []]; vm_compute; intros H;
    solve [reflexivity | discriminate H].
Qed.

Lemma lower_char_idempotent (c : ascii) :
  Js.lower_char (Js.lower_char c) = Js.lower_char c.
Proof. destruct c as [[] [] [] [] [] [] [] []]; vm_compute; reflexivity. Qed.

Lemma toLowerCase_idempotent (s : string) :
  Js.toLowerCase (Js.toLowerCase s) = Js.toLowerCase s.
Proof.
  induction s as [|c s IH]; simpl; [reflexivity|].
  rewrite lower_char_idempotent, IH. reflexivity.
Qed.

Lemma toLowerCase_empty (s : string) : Js.toLowerCase s = "" <-> s = "".
Proof. destruct s; simpl; split; congruence. Qed.

Lemma names_repo_unique (githubRepo o1 r1 o2 r2 : string) :
  Spec.names_repo githubRepo o1 r1 -> Spec.names_repo githubRepo o2 r2 ->
  o1 = o2 /\ r1 = r2.
Proof. intros (A & B & _) (C & D & _). split; congruence. Qed.

Lemma append_nil_r_string (s : string) : s ++ "" = s.
Proof. induction s as [|c s IH]; simpl; [reflexivity | rewrite IH; reflexivity]. Qed.

(** X8.  A URL on the owner's GitHub Pages host whose path merely starts
    with the repository name is not trusted: [/<repo>] followed by anything
    but a slash (a sibling repository such as [/<repo>-archive]) is
    rejected, unless the host is a local-development host. *)
Theorem sibling_repository_is_not_trusted
    (URL_new : string -> option URL) (githubRepo owner repo u : string)
    (parsed : URL) (c : ascii) (more : string) :
  Spec.names_repo githubRepo owner repo ->
  URL_new u = Some parsed ->
  pathname parsed = "/" ++ repo ++ String c more ->
  c <> "/"%char ->
  ~ Spec.local_host (Js.toLowerCase (hostname parsed)) ->
  isTrustedFrontendUrl URL_new githubRepo (Some u) = false.
Proof.
  intros Hnames Eparse Hpath Hc Hlocal.
  destruct (isTrustedFrontendUrl URL_new githubRepo (Some u)) eqn:E; [|reflexivity].
  exfalso.
  destruct (isTrustedFrontendUrl_guards _ _ _ E)
    as (u' & parsed' & owner' & repo' & Eu & Hu & Eparse' & Hnames').
  inversion Eu. subst u'. rewrite Eparse in Eparse'. inversion Eparse'. subst parsed'.
  destruct (names_repo_unique Hnames Hnames') as (<- & <-).
  rewrite (isTrustedFrontendUrl_configured _ Hu Eparse Hnames) in E.
  apply folded_reflect in E. destruct E as [(_ & Hunder) | Hl]; [|exact (Hlocal Hl)].
  rewrite Hpath in Hunder. simpl in Hunder. rewrite toLowerCase_app in Hunder.
  simpl in Hunder.
  assert (Js.lower_char c <> "/"%char) as Hc'
      by (intros H; apply Hc, lower_char_slash, H).
  unfold Spec.at_or_under in Hunder. simpl in Hunder.
  destruct Hunder as [H | [H | (below & H)]]; inversion H as [H'];
    clear H.
  - rewrite <- (append_nil_r_string (Js.toLowerCase repo)) in H' at 2.
    apply append_cancel in H'. discriminate H'.
  - apply append_cancel in H'. inversion H'. congruence.
  - apply append_cancel in H'. inversion H'. congruence.
Qed.

Lemma sibling_repository_is_not_trusted_witness :
  isTrustedFrontendUrl Samples.URL_new "alice/papers"
    (Some "https://alice.github.io/papers-archive/") = false.
Proof.
  apply (@sibling_repository_is_not_trusted Samples.URL_new "alice/papers"
           "alice" "papers" "https://alice.github.io/papers-archive/"
           {| hostname := "alice.github.io"; pathname := "/papers-archive/" |}
           "-"%char "archive/").
  - unfold Spec.names_repo. simpl. repeat split; discriminate.
  - reflexivity.
  - reflexivity.
  - discriminate.
  - unfold Spec.local_host. simpl. intros [H | H]; discriminate H.
Defined.

Lemma nth_repo_key (githubRepo : string) (k : nat) :
  k < 2 ->
  nth_error (Spec.repo_key githubRepo) k
  = option_map Js.toLowerCase
      (nth_error (Js.split (Js.is_char "/") githubRepo) k).
Proof.
  intros Hk. unfold Spec.repo_key.
  rewrite nth_error_map. f_equal.
  destruct (Js.split (Js.is_char "/") githubRepo) as [|a [|b l]];
    destruct k as [|[|k]]; try lia; reflexivity.
Qed.

Lemma names_repo_by_key (g1 g2 o1 r1 : string) :
  Spec.repo_key g1 = Spec.repo_key g2 ->
  Spec.names_repo g1 o1 r1 ->
  exists o2 r2,
    Spec.names_repo g2 o2 r2 /\
    Js.toLowerCase o2 = Js.toLowerCase o1 /\
    Js.toLowerCase r2 = Js.toLowerCase r1.
Proof.
  intros Hkey (Eo & Er & Ho & Hr).
  pose proof (@nth_repo_key g1 0 ltac:(lia)) as K10.
  pose proof (@nth_repo_key g1 1 ltac:(lia)) as K11.
  pose proof (@nth_repo_key g2 0 ltac:(lia)) as K20.
  pose proof (@nth_repo_key g2 1 ltac:(lia)) as K21.
  rewrite Hkey, K20, Eo in K10. rewrite Hkey, K21, Er in K11.
  destruct (nth_error (Js.split (Js.is_char "/") g2) 0) as [o2|] eqn:Eo2;
    [|discriminate].
  destruct (nth_error (Js.split (Js.is_char "/") g2) 1) as [r2|] eqn:Er2;
    [|discriminate].
  simpl in K10, K11. injection K10 as Lo. injection K11 as Lr.
  exists o2, r2. split; [|split; assumption].
  unfold Spec.names_repo.
  split; [exact Eo2|]. split; [exact Er2|]. split.
  - intros ->. apply Ho, toLowerCase_empty. symmetry. exact Lo.
  - intros ->. apply Hr, toLowerCase_empty. symmetry. exact Lr.
Qed.

Lemma trust_by_key_one_way
    (URL_new : string -> option URL) (g1 g2 : string) (url : option string) :
  Spec.repo_key g1 = Spec.repo_key g2 ->
  isTrustedFrontendUrl URL_new g1 url = true ->
  isTrustedFrontendUrl URL_new g2 url = true.
Proof.
  intros Hkey E.
  destruct (isTrustedFrontendUrl_guards _ _ _ E)
    as (u & parsed & o1 & r1 & -> & Hu & Eparse & Hnames).
  rewrite (isTrustedFrontendUrl_configured _ Hu Eparse Hnames) in E.
  destruct (@names_repo_by_key g1 g2 o1 r1 Hkey Hnames) as (o2 & r2 & Hnames2 & Lo & Lr).
  rewrite (isTrustedFrontendUrl_configured _ Hu Eparse Hnames2), Lo, Lr.
  exact E.
Qed.

(** X9.  The trust check depends on the configured repository only
    through its first two components in lower case: two settings with
    the same owner and repository up to letter case, whatever follows a
    second slash, trust exactly the same URLs. *)
Theorem trust_depends_on_repo_key
    (URL_new : string -> option URL) (g1 g2 : string) (url : option string) :
  Spec.repo_key g1 = Spec.repo_key g2 ->
  isTrustedFrontendUrl URL_new g1 url = isTrustedFrontendUrl URL_new g2 url.
Proof.
  intros Hkey.
  destruct (isTrustedFrontendUrl URL_new g1 url) eqn:E1.
  - symmetry. exact (@trust_by_key_one_way URL_new g1 g2 url Hkey E1).
  - destruct (isTrustedFrontendUrl URL_new g2 url) eqn:E2; [|reflexivity].
    rewrite (@trust_by_key_one_way URL_new g2 g1 url (eq_sym Hkey) E2) in E1.
    discriminate E1.
Qed.

Lemma trust_depends_on_repo_key_witness :
  Spec.repo_key "Alice/Papers/gh-pages" = ["alice"; "papers"] /\
  isTrustedFrontendUrl Samples.URL_new "Alice/Papers/gh-pages"
    (Some "https://alice.github.io/papers/") = true.
Proof.
  split; [reflexivity|].
  rewrite (@trust_depends_on_repo_key Samples.URL_new "Alice/Papers/gh-pages"
             "alice/papers" (Some "https://alice.github.io/papers/") eq_refl).
  reflexivity.
Defined.

(** ** The shape of paper ids *)

Lemma plus_rests_nil (p : ascii -> bool) (s : string) :
  Regex.plus_rests p s = [] <-> Spec.starts_in p s = false.
Proof.
  destruct s as [|c s]; simpl; [tauto|].
  destruct (p c); [|tauto].
  split; [|discriminate].
  intros H. apply app_eq_nil in H. destruct H as (_ & H). discriminate H.
Qed.

(** The first way [class+] matches takes the longest run of the class. *)
Lemma hd_plus_rests_inv (p : ascii -> bool) (s s' : string) :
  hd_error (Regex.plus_rests p s) = Some s' ->
  exists d, s = d ++ s' /\ d <> "" /\ Spec.all_in p d = true /\
            Spec.starts_in p s' = false.
Proof.
  revert s'. induction s as [|c s IH]; intros s'; simpl; [discriminate|].
  destruct (p c) eqn:Ec; [|discriminate].
  destruct (Regex.plus_rests p s) as [|y ys] eqn:E; simpl.
  - intros H. inversion H. subst s'. exists (String c "").
    split; [reflexivity|]. split; [discriminate|]. simpl. rewrite Ec.
    split; [reflexivity|]. apply plus_rests_nil. exact E.
  - intros H. inversion H. subst y.
    destruct (IH s' eq_refl) as (d & -> & Hd & Hall & Hs').
    exists (String c d). simpl. rewrite Ec, Hall. repeat split; auto. discriminate.
Qed.

Lemma hd_plus_rests_app (p : ascii -> bool) (d s' : string) :
  d <> "" -> Spec.all_in p d = true -> Spec.starts_in p s' = false ->
  hd_error (Regex.plus_rests p (d ++ s')) = Some s'.
Proof.
  induction d as [|c d IH]; [congruence|]. intros _ Hall Hs'.
  simpl in Hall. apply andb_true_iff in Hall as (Hc & Hall).
  simpl. rewrite Hc.
  destruct d as [|c' d].
  - simpl. apply plus_rests_nil in Hs'. rewrite Hs'. reflexivity.
  - specialize (IH ltac:(discriminate) Hall Hs').
    destruct (Regex.plus_rests p (String c' d ++ s')); [discriminate IH | exact IH].
Qed.

Lemma take_run (d s' : string) :
  Regex.take (String.length (d ++ s') - String.length s') (d ++ s') = d.
Proof.
  rewrite length_app.
  replace (String.length d + String.length s' - String.length s')
    with (String.length d) by lia.
  induction d as [|c d IH]; simpl; [destruct s'; reflexivity | rewrite IH; reflexivity].
Qed.

Lemma strip_prefix_inv (l t t1 : string) :
  Regex.strip_prefix l t = Some t1 -> t = l ++ t1.
Proof.
  revert t. induction l as [|a l IH]; intros t; simpl.
  - intros H. inversion H. reflexivity.
  - destruct t as [|b t]; [discriminate|].
    destruct (Ascii.eqb a b) eqn:E; [|discriminate].
    apply Ascii.eqb_eq in E. subst b. intros H. rewrite (IH _ H). reflexivity.
Qed.

Lemma strip_prefix_same (l t1 : string) : Regex.strip_prefix l (l ++ t1) = Some t1.
Proof.
  induction l as [|a l IH]; simpl; [reflexivity|].
  rewrite Ascii.eqb_refl. exact IH.
Qed.

(** A match found by the search starts at some position of the input. *)
Lemma search_from_found (r : Regex.regex) (s : string) :
  forall i m,
    Regex.search_from r i s = Some m ->
    exists pre t, s = pre ++ t /\ Regex.exec_at r (i + String.length pre) t = Some m.
Proof.
  induction s as [|c s IH]; intros i m; simpl.
  - destruct (Regex.exec_at r i "") eqn:E; [|discriminate].
    intros H. inversion H. subst. exists "", "". rewrite Nat.add_0_r. auto.
  - destruct (Regex.exec_at r i (String c s)) eqn:E.
    + intros H. inversion H. subst. exists "", (String c s).
      rewrite Nat.add_0_r. auto.
    + intros H. destruct (IH _ _ H) as (pre & t & -> & Ht).
      exists (String c pre), t. split; [reflexivity|].
      simpl. rewrite Nat.add_succ_r. exact Ht.
Qed.

Lemma search_from_here (r : Regex.regex) (i : nat) (s : string) m :
  Regex.exec_at r i s = Some m -> Regex.search_from r i s = Some m.
Proof. intros H. destruct s; simpl; rewrite H; reflexivity. Qed.

(** Before the first character of its literal a pattern cannot match. *)
Lemma search_from_skip (a : ascii) (l : string) (r : Regex.regex)
    (pre s : string) :
  Js.includes a pre = false ->
  forall i,
    Regex.search_from (Regex.Lit (String a l) :: r) i (pre ++ s)
    = Regex.search_from (Regex.Lit (String a l) :: r) (i + String.length pre) s.
Proof.
  induction pre as [|c pre IH]; intros H i.
  - simpl. rewrite Nat.add_0_r. reflexivity.
  - simpl in H. apply orb_false_iff in H as (Hc & H).
    cbn [append Regex.search_from]. unfold Regex.exec_at at 1.
    rewrite run_Lit. cbn [Regex.start Regex.rest Regex.strip_prefix].
    rewrite Hc. cbn [hd_error]. rewrite (IH H). simpl.
    rewrite Nat.add_succ_r. reflexivity.
Qed.

Lemma exec_at_group (r : Regex.regex) (i : nat) (s : string) (g : option string) :
  Regex.first_group (Regex.run r (Regex.start s i)) = Some g ->
  exists m, Regex.exec_at r i s = Some m /\ Regex.group1 m = g.
Proof.
  unfold Regex.first_group, Regex.exec_at.
  destruct (hd_error _) as [m|]; simpl; [|discriminate].
  intros H. inversion H. eauto.
Qed.

(** *** What the patterns capture after their literal *)

Lemma ieee_tail_group (t1 : string) (j : nat) :
  Regex.first_group
    (Regex.run [Regex.Open; Regex.Plus Regex.digit; Regex.Close] (Regex.start t1 j))
  = option_map
      (fun s' => Some (Regex.take (String.length t1 - String.length s') t1))
      (hd_error (Regex.plus_rests Regex.digit t1)).
Proof.
  unfold Regex.start. rewrite run_Open. cbn [Regex.rest Regex.pos Regex.group1].
  rewrite first_group_Plus_Close with (g := t1); [reflexivity | reflexivity | auto].
Qed.

Lemma nber_tail_group (t1 : string) (j : nat) :
  Regex.first_group
    (Regex.run [Regex.Open; Regex.Opt (Js.is_char "w"); Regex.Plus Regex.digit;
                Regex.Close] (Regex.start t1 j))
  = option_map
      (fun s' => Some (Regex.take (String.length t1 - String.length s') t1))
      (hd_error
         (Regex.plus_rests Regex.digit
            match t1 with
            | String c t2 => if Js.is_char "w" c then t2 else t1
            | EmptyString => t1
            end)).
Proof.
  unfold Regex.start. rewrite run_Open, run_Opt.
  cbn [Regex.rest Regex.pos Regex.group1 Regex.advance Regex.gopen].
  destruct t1 as [|c t2]; [reflexivity|].
  destruct (Js.is_char "w" c) eqn:Ew.
  - apply is_char_eq in Ew. subst c.
    rewrite (run_Plus Regex.digit _ {| Regex.rest := String "w" t2 |}).
    cbn [Regex.rest Regex.plus_rests].
    replace (Regex.digit "w") with false by reflexivity.
    cbn [flat_map]. rewrite app_nil_r.
    rewrite first_group_Plus_Close with (g := String "w" t2);
      [reflexivity | reflexivity | auto].
  - rewrite first_group_Plus_Close with (g := String c t2);
      [reflexivity | reflexivity | auto].
Qed.

Lemma acl_tail_group (t1 : string) (j : nat) :
  Regex.first_group
    (Regex.run
       [ Regex.Open;
         Regex.Cls (fun c => Regex.upper c || Regex.digit c);
         Regex.Plus (fun c => Regex.word c || Js.is_char "." c || Js.is_char "-" c);
         Regex.Close; Regex.Opt (Js.is_char "/") ] (Regex.start t1 j))
  = match t1 with
    | String c t2 =>
        if Regex.upper c || Regex.digit c then
          option_map
            (fun s' => Some (Regex.take (String.length t1 - String.length s') t1))
            (hd_error
               (Regex.plus_rests
                  (fun c => Regex.word c || Js.is_char "." c || Js.is_char "-" c) t2))
        else None
    | EmptyString => None
    end.
Proof.
  unfold Regex.start. rewrite run_Open, run_Cls.
  cbn [Regex.rest Regex.pos Regex.group1 Regex.advance Regex.gopen].
  destruct t1 as [|c t2]; [reflexivity|].
  destruct (Regex.upper c || Regex.digit c); [|reflexivity].
  rewrite first_group_Plus_Close with (g := String c t2);
    [reflexivity | reflexivity | right; eauto].
Qed.

Lemma lit_group (l : string) (r : Regex.regex) (t : string) (j : nat) :
  Regex.first_group (Regex.run (Regex.Lit l :: r) (Regex.start t j))
  = match Regex.strip_prefix l t with
    | Some t1 =>
        Regex.first_group
          (Regex.run r (Regex.start t1 (j + (String.length t - String.length t1))))
    | None => None
    end.
Proof.
  rewrite run_Lit. cbn [Regex.start Regex.rest]. fold (Regex.start t j).
  destruct (Regex.strip_prefix l t); [rewrite advance_start|]; reflexivity.
Qed.

Lemma all_in_excludes (p : ascii -> bool) (c : ascii) (s : string) :
  Spec.all_in p s = true -> p c = false -> Js.includes c s = false.
Proof.
  intros Hall Hc. induction s as [|d s IH]; simpl; [reflexivity|].
  simpl in Hall. apply andb_true_iff in Hall as (Hd & Hall).
  rewrite (IH Hall), orb_false_r.
  destruct (Ascii.eqb c d) eqn:E; [|reflexivity].
  apply Ascii.eqb_eq in E. congruence.
Qed.

Lemma drop_final_slash_without (s : string) :
  Js.includes "/" s = false -> AclAnthology.drop_final_slash s = s.
Proof.
  induction s as [|c s IH]; [reflexivity|]. simpl. intros H.
  apply orb_false_iff in H as (Hc & H).
  destruct s as [|d s].
  - unfold Js.is_char. rewrite Hc. reflexivity.
  - rewrite (IH H). reflexivity.
Qed.

Lemma ieee_found (url id : string) :
  Ieee.extractPaperId url = Some id ->
  exists pre t1 s',
    url = pre ++ "ieeexplore.ieee.org/document/" ++ t1 /\
    hd_error (Regex.plus_rests Regex.digit t1) = Some s' /\
    id = Regex.take (String.length t1 - String.length s') t1.
Proof.
  unfold Ieee.extractPaperId.
  destruct (Regex.exec _ url) as [m|] eqn:E; [|discriminate].
  intros G. apply search_from_found in E as (pre & t & -> & E).
  assert (Regex.first_group
            (Regex.run (nth 0 Ieee.urlPatterns []) (Regex.start t (0 + String.length pre)))
          = Some (Some id)) as F.
  { unfold Regex.first_group. unfold Regex.exec_at in E. rewrite E. simpl.
    rewrite G. reflexivity. }
  cbn [nth Ieee.urlPatterns] in F. rewrite lit_group in F.
  destruct (Regex.strip_prefix _ t) as [t1|] eqn:Et; [|discriminate].
  apply strip_prefix_inv in Et. rewrite ieee_tail_group in F.
  destruct (hd_error _) as [s'|] eqn:Eh; [|discriminate].
  simpl in F. inversion F. exists pre, t1, s'. subst t. auto.
Qed.

Lemma nber_found (url id : string) :
  Nber.extractPaperId url = Some id ->
  exists pre t1 s',
    url = pre ++ "nber.org/papers/" ++ t1 /\
    hd_error
      (Regex.plus_rests Regex.digit
         match t1 with
         | String c t2 => if Js.is_char "w" c then t2 else t1
         | EmptyString => t1
         end) = Some s' /\
    id = Regex.take (String.length t1 - String.length s') t1.
Proof.
  unfold Nber.extractPaperId.
  destruct (Regex.exec _ url) as [m|] eqn:E; [|discriminate].
  intros G. apply search_from_found in E as (pre & t & -> & E).
  assert (Regex.first_group
            (Regex.run (nth 0 Nber.urlPatterns []) (Regex.start t (0 + String.length pre)))
          = Some (Some id)) as F.
  { unfold Regex.first_group. unfold Regex.exec_at in E. rewrite E. simpl.
    rewrite G. reflexivity. }
  cbn [nth Nber.urlPatterns] in F. rewrite lit_group in F.
  destruct (Regex.strip_prefix _ t) as [t1|] eqn:Et; [|discriminate].
  apply strip_prefix_inv in Et. rewrite nber_tail_group in F.
  destruct (hd_error _) as [s'|] eqn:Eh; [|discriminate].
  simpl in F. inversion F. exists pre, t1, s'. subst t. auto.
Qed.

Lemma acl_found (url id : string) :
  AclAnthology.extractPaperId url = Some id ->
  exists pre c t2 s',
    url = pre ++ "aclanthology.org/" ++ String c t2 /\
    (Regex.upper c || Regex.digit c) = true /\
    hd_error
      (Regex.plus_rests
         (fun c => Regex.word c || Js.is_char "." c || Js.is_char "-" c) t2) = Some s' /\
    id = AclAnthology.drop_final_slash
           (Regex.take (String.length (String c t2) - String.length s') (String c t2)).
Proof.
  unfold AclAnthology.extractPaperId.
  destruct (Regex.exec _ url) as [m|] eqn:E; [|discriminate].
  destruct (Regex.group1 m) as [g|] eqn:G; [|discriminate].
  intros H. simpl in H. inversion H as [Hid]. clear H.
  apply search_from_found in E as (pre & t & -> & E).
  assert (Regex.first_group
            (Regex.run (nth 0 AclAnthology.urlPatterns [])
               (Regex.start t (0 + String.length pre)))
          = Some (Some g)) as F.
  { unfold Regex.first_group. unfold Regex.exec_at in E. rewrite E. simpl.
    rewrite G. reflexivity. }
  cbn [nth AclAnthology.urlPatterns] in F. rewrite lit_group in F.
  destruct (Regex.strip_prefix _ t) as [t1|] eqn:Et; [|discriminate].
  apply strip_prefix_inv in Et. rewrite acl_tail_group in F.
  destruct t1 as [|c t2]; [discriminate|].
  destruct (Regex.upper c || Regex.digit c) eqn:Ec; [|discriminate].
  destruct (hd_error _) as [s'|] eqn:Eh; [|discriminate].
  simpl in F. inversion F as [Hg]. exists pre, c, t2, s'. subst t.
  repeat split; auto.
Qed.

(** X10.  The ids the pattern-based integrations return are well formed.
    An IEEE id is a non-empty string of digits; an NBER id is a non-empty
    string of digits, possibly after one [w]; an ACL Anthology id is a
    capital letter or a digit followed by at least one character among
    letters, digits, [_], [.] and [-].  In each case the URL holds the
    site's literal immediately followed by the id, and what follows the id
    does not continue it.  An ACL id holds no slash, so the
    [replace(/\/$/, '')] of the source returns the captured text as it
    is. *)
Theorem paper_ids_are_well_formed (url id : string) :
  (Ieee.extractPaperId url = Some id ->
   id <> "" /\ Spec.all_in Regex.digit id = true /\
   exists pre post,
     url = pre ++ "ieeexplore.ieee.org/document/" ++ id ++ post /\
     Spec.starts_in Regex.digit post = false) /\
  (Nber.extractPaperId url = Some id ->
   exists digits,
     (id = digits \/ id = "w" ++ digits) /\
     digits <> "" /\ Spec.all_in Regex.digit digits = true /\
     exists pre post,
       url = pre ++ "nber.org/papers/" ++ id ++ post /\
       Spec.starts_in Regex.digit post = false) /\
  (AclAnthology.extractPaperId url = Some id ->
   exists c more,
     id = String c more /\
     (Regex.upper c || Regex.digit c) = true /\
     more <> "" /\
     Spec.all_in (fun c => Regex.word c || Js.is_char "." c || Js.is_char "-" c)
       more = true /\
     Js.includes "/" id = false /\
     exists pre post,
       url = pre ++ "aclanthology.org/" ++ id ++ post /\
       Spec.starts_in
         (fun c => Regex.word c || Js.is_char "." c || Js.is_char "-" c) post = false).
Proof.
  split; [|split].
  - intros H. apply ieee_found in H as (pre & t1 & s' & -> & Eh & ->).
    apply hd_plus_rests_inv in Eh as (d & -> & Hd & Hall & Hs').
    rewrite take_run. split; [exact Hd|]. split; [exact Hall|].
    exists pre, s'. auto.
  - intros H. apply nber_found in H as (pre & t1 & s' & -> & Eh & ->).
    destruct t1 as [|c t2]; [discriminate Eh|].
    destruct (Js.is_char "w" c) eqn:Ew.
    + apply is_char_eq in Ew. subst c.
      apply hd_plus_rests_inv in Eh as (d & -> & Hd & Hall & Hs').
      change (String "w" (d ++ s')) with (("w" ++ d) ++ s').
      rewrite take_run. exists d. split; [right; reflexivity|].
      split; [exact Hd|]. split; [exact Hall|]. exists pre, s'. auto.
    + apply hd_plus_rests_inv in Eh as (d & E & Hd & Hall & Hs').
      rewrite E, take_run. exists d. split; [left; reflexivity|].
      split; [exact Hd|]. split; [exact Hall|]. exists pre, s'. auto.
  - intros H. apply acl_found in H as (pre & c & t2 & s' & -> & Hc & Eh & ->).
    apply hd_plus_rests_inv in Eh as (d & -> & Hd & Hall & Hs').
    change (String c (d ++ s')) with (String c d ++ s').
    rewrite take_run.
    assert (Js.includes "/" (String c d) = false) as Hno.
    { cbn [Js.includes].
      rewrite (@all_in_excludes _ "/"%char d Hall eq_refl), orb_false_r.
      destruct (Ascii.eqb "/" c) eqn:E; [|reflexivity].
      apply Ascii.eqb_eq in E. subst c. discriminate Hc. }
    rewrite (drop_final_slash_without _ Hno).
    exists c, d. repeat split; auto. exists pre, s'. auto.
Qed.

Lemma paper_ids_are_well_formed_witness :
  Ieee.extractPaperId "https://ieeexplore.ieee.org/document/9054643/authors#authors"
    = Some "9054643" /\
  Spec.all_in Regex.digit "9054643" = true /\
  Js.includes "/" "2023.acl-long.1" = false.
Proof.
  split; [reflexivity|].
  destruct (proj1 (paper_ids_are_well_formed
                     "https://ieeexplore.ieee.org/document/9054643/authors#authors"
                     "9054643") eq_refl) as (_ & Hdigits & _).
  split; [exact Hdigits|].
  destruct (proj2 (proj2 (paper_ids_are_well_formed
                     "https://aclanthology.org/2023.acl-long.1/" "2023.acl-long.1"))
              eq_refl) as (c & more & _ & _ & _ & _ & Hslash & _).
  exact Hslash.
Defined.

Lemma group_found (r : Regex.regex) (i : nat) (s : string) (g : option string) :
  Regex.first_group (Regex.run r (Regex.start s i)) = Some g ->
  match Regex.search_from r i s with
  | Some m => Regex.group1 m
  | None => None
  end = g.
Proof.
  intros H. apply exec_at_group in H as (m & E & G).
  rewrite (search_from_here _ _ _ E). exact G.
Qed.

(** X11.  A URL made of a prefix, the site's literal, a well-formed id
    and a rest that does not continue the id gives back exactly that id,
    provided the prefix does not hold the first letter of the literal (as
    [https://] or [https://www.] do not). *)
Theorem canonical_urls_give_back_the_id (pre post : string) :
  (forall digits,
     Js.includes "i" pre = false ->
     digits <> "" -> Spec.all_in Regex.digit digits = true ->
     Spec.starts_in Regex.digit post = false ->
     Ieee.extractPaperId (pre ++ "ieeexplore.ieee.org/document/" ++ digits ++ post)
     = Some digits) /\
  (forall digits id,
     Js.includes "n" pre = false ->
     id = digits \/ id = "w" ++ digits ->
     digits <> "" -> Spec.all_in Regex.digit digits = true ->
     Spec.starts_in Regex.digit post = false ->
     Nber.extractPaperId (pre ++ "nber.org/papers/" ++ id ++ post) = Some id) /\
  (forall c more,
     Js.includes "a" pre = false ->
     (Regex.upper c || Regex.digit c) = true ->
     more <> "" ->
     Spec.all_in (fun c => Regex.word c || Js.is_char "." c || Js.is_char "-" c)
       more = true ->
     Spec.starts_in (fun c => Regex.word c || Js.is_char "." c || Js.is_char "-" c)
       post = false ->
     AclAnthology.extractPaperId (pre ++ "aclanthology.org/" ++ String c more ++ post)
     = Some (String c more)).
Proof.
  split; [|split].
  - intros digits Hpre Hd Hall Hpost.
    unfold Ieee.extractPaperId, Regex.exec. cbn [nth Ieee.urlPatterns].
    rewrite (@search_from_skip "i" _ _ pre _ Hpre).
    apply group_found. rewrite lit_group, strip_prefix_same, ieee_tail_group.
    rewrite (@hd_plus_rests_app _ _ _ Hd Hall Hpost). cbn [option_map].
    rewrite take_run. reflexivity.
  - intros digits id Hpre Hid Hd Hall Hpost.
    unfold Nber.extractPaperId, Regex.exec. cbn [nth Nber.urlPatterns].
    rewrite (@search_from_skip "n" _ _ pre _ Hpre).
    apply group_found. rewrite lit_group, strip_prefix_same, nber_tail_group.
    destruct Hid as [-> | ->].
    + destruct digits as [|c digits]; [congruence|].
      assert (Js.is_char "w" c = false) as Hw.
      { simpl in Hall. apply andb_true_iff in Hall as (Hc & _).
        destruct (Js.is_char "w" c) eqn:E; [|reflexivity].
        apply is_char_eq in E. subst c. discriminate Hc. }
      cbn [append]. rewrite Hw.
      change (String c (digits ++ post)) with (String c digits ++ post).
      rewrite (@hd_plus_rests_app _ _ _ Hd Hall Hpost). cbn [option_map].
      rewrite take_run. reflexivity.
    + cbn [append]. replace (Js.is_char "w" "w") with true by reflexivity.
      rewrite (@hd_plus_rests_app _ _ _ Hd Hall Hpost). cbn [option_map].
      change (String "w" (digits ++ post)) with (("w" ++ digits) ++ post).
      rewrite take_run. reflexivity.
  - intros c more Hpre Hc Hm Hall Hpost.
    unfold AclAnthology.extractPaperId, Regex.exec. cbn [nth AclAnthology.urlPatterns].
    rewrite (@search_from_skip "a" _ _ pre _ Hpre).
    match goal with
    | |- match ?S with Some _ => _ | None => _ end = _ =>
        assert (match S with Some m => Regex.group1 m | None => None end
                = Some (String c more)) as G
    end.
    { apply group_found. rewrite lit_group, strip_prefix_same, acl_tail_group.
      cbn [append]. rewrite Hc, (@hd_plus_rests_app _ _ _ Hm Hall Hpost).
      cbn [option_map].
      change (String c (more ++ post)) with (String c more ++ post).
      rewrite take_run. reflexivity. }
    destruct (Regex.search_from _ _ _) as [m|]; [|discriminate G].
    rewrite G. cbn [option_map]. f_equal. apply drop_final_slash_without.
    cbn [Js.includes].
    rewrite (@all_in_excludes _ "/"%char more Hall eq_refl), orb_false_r.
    destruct (Ascii.eqb "/" c) eqn:E; [|reflexivity].
    apply Ascii.eqb_eq in E. subst c. discriminate Hc.
Qed.

Lemma canonical_urls_give_back_the_id_witness :
  Ieee.extractPaperId "https://ieeexplore.ieee.org/document/9054643?arnumber=1"
    = Some "9054643" /\
  Nber.extractPaperId "https://www.nber.org/papers/w31161/revisions" = Some "w31161" /\
  AclAnthology.extractPaperId "https://aclanthology.org/2023.acl-long.1/"
    = Some "2023.acl-long.1".
Proof.
  pose proof (canonical_urls_give_back_the_id "https://" "?arnumber=1") as (Hi & _ & _).
  pose proof (canonical_urls_give_back_the_id "https://www." "/revisions") as (_ & Hn & _).
  pose proof (canonical_urls_give_back_the_id "https://" "/") as (_ & _ & Ha).
  split; [|split].
  - apply (Hi "9054643"); [reflexivity | discriminate | reflexivity | reflexivity].
  - apply (Hn "31161" "w31161");
      [reflexivity | right; reflexivity | discriminate | reflexivity | reflexivity].
  - apply (Ha "2"%char "023.acl-long.1");
      [reflexivity | reflexivity | discriminate | reflexivity | reflexivity].
Defined.

(** *** What follows the id *)

Lemma plus_rests_app_out (p : ascii -> bool) (s x : string) :
  Spec.starts_in p x = false ->
  Regex.plus_rests p (s ++ x) = map (fun y => y ++ x) (Regex.plus_rests p s).
Proof.
  intros Hx. induction s as [|c s IH]; simpl.
  - apply plus_rests_nil. exact Hx.
  - destruct (p c); [|reflexivity].
    rewrite IH, map_app. reflexivity.
Qed.

Lemma captured_app_out (g s' x : string) :
  Regex.take (String.length (g ++ x) - String.length (s' ++ x)) (g ++ x)
  = Regex.take (String.length g - String.length s') g.
Proof.
  rewrite !length_app.
  replace (String.length g + String.length x - (String.length s' + String.length x))
    with (String.length g - String.length s') by lia.
  apply take_app. lia.
Qed.

Lemma group_app_out (p : ascii -> bool) (g t x : string) :
  Spec.starts_in p x = false ->
  option_map
    (fun s' => Some (Regex.take (String.length (g ++ x) - String.length s') (g ++ x)))
    (hd_error (Regex.plus_rests p (t ++ x)))
  = option_map
      (fun s' => Some (Regex.take (String.length g - String.length s') g))
      (hd_error (Regex.plus_rests p t)).
Proof.
  intros Hx. rewrite (@plus_rests_app_out _ t _ Hx).
  destruct (Regex.plus_rests p t) as [|s' l]; simpl; [reflexivity|].
  rewrite captured_app_out. reflexivity.
Qed.

Lemma strip_prefix_app_long (l t x : string) :
  String.length l <= String.length t ->
  Regex.strip_prefix l (t ++ x)
  = option_map (fun t1 => t1 ++ x) (Regex.strip_prefix l t).
Proof.
  revert t. induction l as [|a l IH]; intros t H; simpl.
  - reflexivity.
  - destruct t as [|b t]; simpl in H; [lia|]. simpl.
    destruct (Ascii.eqb a b); [apply IH; lia | reflexivity].
Qed.

Lemma lit_app_out (l : string) (tail : Regex.regex) (x : string) :
  (forall t1 j j',
     Regex.first_group (Regex.run tail (Regex.start (t1 ++ x) j))
     = Regex.first_group (Regex.run tail (Regex.start t1 j'))) ->
  forall t j,
    String.length l <= String.length t ->
    Regex.first_group (Regex.run (Regex.Lit l :: tail) (Regex.start (t ++ x) j))
    = Regex.first_group (Regex.run (Regex.Lit l :: tail) (Regex.start t j)).
Proof.
  intros B t j Hlen. rewrite !lit_group, (@strip_prefix_app_long _ _ x Hlen).
  destruct (Regex.strip_prefix l t); simpl; [apply B | reflexivity].
Qed.

Lemma exec_at_length (l : string) (r : Regex.regex) (i : nat) (t : string) m :
  Regex.exec_at (Regex.Lit l :: r) i t = Some m -> String.length l <= String.length t.
Proof.
  unfold Regex.exec_at. rewrite run_Lit. cbn [Regex.start Regex.rest].
  destruct (Regex.strip_prefix l t) as [t1|] eqn:E; [|discriminate].
  intros _. apply strip_prefix_inv in E. subst t. rewrite length_app. lia.
Qed.

Lemma search_from_length (l : string) (r : Regex.regex) (s : string) (i : nat) m :
  Regex.search_from (Regex.Lit l :: r) i s = Some m ->
  String.length l <= String.length s.
Proof.
  intros H. apply search_from_found in H as (pre & t & -> & E).
  apply exec_at_length in E. rewrite length_app. lia.
Qed.

(** A pattern that starts with a literal and whose rest does not see [x]
    finds the same group when [x] is put after the input. *)
Lemma search_from_app_out (l : string) (tail : Regex.regex) (x : string) :
  (forall t1 j j',
     Regex.first_group (Regex.run tail (Regex.start (t1 ++ x) j))
     = Regex.first_group (Regex.run tail (Regex.start t1 j'))) ->
  forall s i m,
    Regex.search_from (Regex.Lit l :: tail) i s = Some m ->
    exists m',
      Regex.search_from (Regex.Lit l :: tail) i (s ++ x) = Some m' /\
      Regex.group1 m' = Regex.group1 m.
Proof.
  intros B.
  assert (forall t i m,
            Regex.exec_at (Regex.Lit l :: tail) i t = Some m ->
            exists m',
              Regex.search_from (Regex.Lit l :: tail) i (t ++ x) = Some m' /\
              Regex.group1 m' = Regex.group1 m) as Here.
  { intros t i m E.
    assert (Regex.first_group
              (Regex.run (Regex.Lit l :: tail) (Regex.start (t ++ x) i))
            = Some (Regex.group1 m)) as F.
    { rewrite (@lit_app_out l tail x B t i (@exec_at_length _ _ _ _ _ E)).
      unfold Regex.first_group. unfold Regex.exec_at in E. rewrite E. reflexivity. }
    apply exec_at_group in F as (m' & E' & G').
    exists m'. split; [apply search_from_here; exact E' | exact G']. }
  induction s as [|c s IH]; intros i m H.
  - simpl in H.
    destruct (Regex.exec_at (Regex.Lit l :: tail) i "") eqn:E; [|discriminate].
    inversion H. subst. apply Here. exact E.
  - cbn [Regex.search_from] in H.
    destruct (Regex.exec_at (Regex.Lit l :: tail) i (String c s)) eqn:E.
    + inversion H. subst. apply Here. exact E.
    + pose proof (@search_from_length _ _ _ _ _ H) as Hlen.
      cbn [append Regex.search_from].
      assert (Regex.exec_at (Regex.Lit l :: tail) i (String c (s ++ x)) = None) as N.
      { assert (Regex.first_group
                  (Regex.run (Regex.Lit l :: tail)
                     (Regex.start (String c s ++ x) i)) = None) as F.
        { rewrite (@lit_app_out l tail x B (String c s) i); [|simpl; lia].
          unfold Regex.first_group. unfold Regex.exec_at in E. rewrite E.
          reflexivity. }
        unfold Regex.first_group in F. unfold Regex.exec_at.
        cbn [append] in F.
        destruct (hd_error _); [discriminate F | reflexivity]. }
      rewrite N. apply IH. exact H.
Qed.

Lemma ieee_tail_app_out (x t1 : string) (j j' : nat) :
  Spec.starts_in Regex.digit x = false ->
  Regex.first_group
    (Regex.run [Regex.Open; Regex.Plus Regex.digit; Regex.Close]
       (Regex.start (t1 ++ x) j))
  = Regex.first_group
      (Regex.run [Regex.Open; Regex.Plus Regex.digit; Regex.Close]
         (Regex.start t1 j')).
Proof. intros Hx. rewrite !ieee_tail_group. apply group_app_out. exact Hx. Qed.

Lemma nber_tail_app_out (x t1 : string) (j j' : nat) :
  Spec.starts_in (fun c => Regex.digit c || Js.is_char "w" c) x = false ->
  Regex.first_group
    (Regex.run [Regex.Open; Regex.Opt (Js.is_char "w"); Regex.Plus Regex.digit;
                Regex.Close] (Regex.start (t1 ++ x) j))
  = Regex.first_group
      (Regex.run [Regex.Open; Regex.Opt (Js.is_char "w"); Regex.Plus Regex.digit;
                  Regex.Close] (Regex.start t1 j')).
Proof.
  intros Hx. rewrite !nber_tail_group.
  assert (Spec.starts_in Regex.digit x = false) as Hd.
  { destruct x as [|c0 x]; [reflexivity|]. cbn [Spec.starts_in] in *.
    apply orb_false_iff in Hx as (Hx & _). exact Hx. }
  destruct t1 as [|c t2].
  - cbn [append]. destruct x as [|c0 x]; [reflexivity|].
    cbn [Spec.starts_in] in Hx. apply orb_false_iff in Hx as (H0 & Hw).
    rewrite Hw. cbn [Regex.plus_rests]. rewrite H0. reflexivity.
  - cbn [append]. change (String c (t2 ++ x)) with (String c t2 ++ x).
    destruct (Js.is_char "w" c); apply group_app_out; exact Hd.
Qed.

Lemma acl_tail_app_out (x t1 : string) (j j' : nat) :
  Spec.starts_in (fun c => Regex.word c || Js.is_char "." c || Js.is_char "-" c) x
  = false ->
  Regex.first_group
    (Regex.run
       [ Regex.Open;
         Regex.Cls (fun c => Regex.upper c || Regex.digit c);
         Regex.Plus (fun c => Regex.word c || Js.is_char "." c || Js.is_char "-" c);
         Regex.Close; Regex.Opt (Js.is_char "/") ] (Regex.start (t1 ++ x) j))
  = Regex.first_group
      (Regex.run
         [ Regex.Open;
           Regex.Cls (fun c => Regex.upper c || Regex.digit c);
           Regex.Plus (fun c => Regex.word c || Js.is_char "." c || Js.is_char "-" c);
           Regex.Close; Regex.Opt (Js.is_char "/") ] (Regex.start t1 j')).
Proof.
  intros Hx. rewrite !acl_tail_group.
  destruct t1 as [|c t2].
  - cbn [append]. destruct x as [|c0 x]; [reflexivity|].
    cbn [Spec.starts_in] in Hx. unfold Regex.word in Hx.
    destruct (Regex.upper c0); [discriminate Hx|].
    destruct (Regex.digit c0); [|reflexivity].
    destruct (Regex.lowerc c0); discriminate Hx.
  - cbn [append]. change (String c (t2 ++ x)) with (String c t2 ++ x).
    destruct (Regex.upper c || Regex.digit c); [|reflexivity].
    apply group_app_out. exact Hx.
Qed.

(** X12.  The id read from a URL does not change when text is put after
    the URL, as long as that text does not start with a character that
    could continue the id: a digit for IEEE, a digit or [w] for NBER, a
    word character, a dot or a hyphen for the ACL Anthology. *)
Theorem ids_ignore_what_follows (url id x : string) :
  (Ieee.extractPaperId url = Some id ->
   Spec.starts_in Regex.digit x = false ->
   Ieee.extractPaperId (url ++ x) = Some id) /\
  (Nber.extractPaperId url = Some id ->
   Spec.starts_in (fun c => Regex.digit c || Js.is_char "w" c) x = false ->
   Nber.extractPaperId (url ++ x) = Some id) /\
  (AclAnthology.extractPaperId url = Some id ->
   Spec.starts_in (fun c => Regex.word c || Js.is_char "." c || Js.is_char "-" c) x
   = false ->
   AclAnthology.extractPaperId (url ++ x) = Some id).
Proof.
  split; [|split].
  - unfold Ieee.extractPaperId, Regex.exec. cbn [nth Ieee.urlPatterns].
    intros H Hx.
    destruct (Regex.search_from _ 0 url) as [m|] eqn:E; [|discriminate H].
    destruct (@search_from_app_out _ _ x
                (fun t1 j j' => @ieee_tail_app_out x t1 j j' Hx) _ _ _ E)
      as (m' & E' & G).
    rewrite E', G. exact H.
  - unfold Nber.extractPaperId, Regex.exec. cbn [nth Nber.urlPatterns].
    intros H Hx.
    destruct (Regex.search_from _ 0 url) as [m|] eqn:E; [|discriminate H].
    destruct (@search_from_app_out _ _ x
                (fun t1 j j' => @nber_tail_app_out x t1 j j' Hx) _ _ _ E)
      as (m' & E' & G).
    rewrite E', G. exact H.
  - unfold AclAnthology.extractPaperId, Regex.exec.
    cbn [nth AclAnthology.urlPatterns].
    intros H Hx.
    destruct (Regex.search_from _ 0 url) as [m|] eqn:E; [|discriminate H].
    destruct (@search_from_app_out _ _ x
                (fun t1 j j' => @acl_tail_app_out x t1 j j' Hx) _ _ _ E)
      as (m' & E' & G).
    rewrite E', G. exact H.
Qed.

Lemma ids_ignore_what_follows_witness :
  Ieee.extractPaperId ("https://ieeexplore.ieee.org/document/9054643" ++ "/authors")
    = Some "9054643" /\
  Nber.extractPaperId ("https://www.nber.org/papers/w31161" ++ "?utm_source=feed")
    = Some "w31161" /\
  AclAnthology.extractPaperId ("https://aclanthology.org/2023.acl-long.1" ++ "/#cite")
    = Some "2023.acl-long.1".
Proof.
  split; [|split].
  - apply (proj1 (ids_ignore_what_follows
                    "https://ieeexplore.ieee.org/document/9054643" "9054643"
                    "/authors")); reflexivity.
  - apply (proj1 (proj2 (ids_ignore_what_follows
                           "https://www.nber.org/papers/w31161" "w31161"
                           "?utm_source=feed"))); reflexivity.
  - apply (proj2 (proj2 (ids_ignore_what_follows
                           "https://aclanthology.org/2023.acl-long.1"
                           "2023.acl-long.1" "/#cite"))); reflexivity.
Defined.

(** ** Which URLs are recognised *)

Lemma in_plus_rests (p : ascii -> bool) (s mid : string) :
  In mid (Regex.plus_rests p s) <->
  exists d, d <> "" /\ Spec.all_in p d = true /\ s = d ++ mid.
Proof.
  revert mid. induction s as [|c s IH]; intros mid; simpl.
  - split; [intros [] | intros (d & Hd & _ & E)].
    destruct d; [congruence | discriminate E].
  - destruct (p c) eqn:Hc.
    + rewrite in_app_iff, IH. simpl. split.
      * intros [(d & Hd & Hall & ->) | [-> | []]].
        -- exists (String c d). simpl. rewrite Hc, Hall.
           split; [discriminate | auto].
        -- exists (String c ""). simpl. rewrite Hc.
           split; [discriminate | auto].
      * intros (d & Hd & Hall & E).
        destruct d as [|c' d]; [congruence|]. simpl in E, Hall.
        inversion E. subst c' s.
        apply andb_true_iff in Hall as (_ & Hall).
        destruct d as [|c'' d]; [right; left; reflexivity|].
        left. exists (String c'' d). split; [discriminate | auto].
    + split; [intros [] | intros (d & Hd & Hall & E)].
      destruct d as [|c' d]; [congruence|]. simpl in E, Hall.
      inversion E. subst c'. rewrite Hc in Hall. discriminate Hall.
Qed.

Lemma rep_rest_iff (n : nat) (p : ascii -> bool) (s mid : string) :
  Regex.rep_rest n p s = Some mid <->
  exists d, String.length d = n /\ Spec.all_in p d = true /\ s = d ++ mid.
Proof.
  revert s. induction n as [|n IH]; intros s; simpl.
  - split.
    + intros H. inversion H. exists "". auto.
    + intros (d & L & _ & ->). destruct d; [reflexivity | discriminate L].
  - destruct s as [|c s].
    + split; [discriminate | intros (d & L & _ & E)].
      destruct d; discriminate.
    + destruct (p c) eqn:Hc.
      * rewrite IH. split.
        -- intros (d & L & Hall & ->). exists (String c d). simpl.
           rewrite Hc, Hall, L. auto.
        -- intros (d & L & Hall & E). destruct d as [|c' d]; [discriminate L|].
           simpl in *. inversion E. subst.
           apply andb_true_iff in Hall as (_ & Hall). exists d. auto.
      * split; [discriminate | intros (d & L & Hall & E)].
        destruct d as [|c' d]; [discriminate L|].
        simpl in *. inversion E. subst. rewrite Hc in Hall. discriminate Hall.
Qed.

Lemma strip_prefix_iff (l s mid : string) :
  Regex.strip_prefix l s = Some mid <-> s = l ++ mid.
Proof.
  split; [apply strip_prefix_inv | intros ->; apply strip_prefix_same].
Qed.

(** One step of the matcher takes what the item's text says. *)
Lemma step_takes (it : Regex.item) (st : Regex.mstate) (mid : string) :
  Spec.unanchored [it] = true ->
  (exists st1, In st1 (Regex.step it st) /\ Regex.rest st1 = mid) <->
  Spec.takes it (Regex.rest st) mid.
Proof.
  intros U. destruct it as [l|p|p|p|n p| | | |]; try discriminate U;
    cbn [Regex.step Spec.takes].
  - rewrite <- strip_prefix_iff.
    destruct (Regex.strip_prefix l (Regex.rest st)) as [s1|]; simpl.
    + split; [intros (st1 & [<- | []] & E); simpl in E; congruence|].
      intros E. inversion E. subst. eexists. split; [left; reflexivity | reflexivity].
    + split; [intros (st1 & [] & _) | discriminate].
  - destruct (Regex.rest st) as [|c s'].
    + split; [intros (st1 & [] & _) | intros (c & _ & E); discriminate E].
    + destruct (p c) eqn:Hc.
      * split.
        -- intros (st1 & [<- | []] & E). simpl in E. subst. eauto.
        -- intros (c' & _ & E). inversion E. subst.
           eexists. split; [left; reflexivity | reflexivity].
      * split; [intros (st1 & [] & _) | intros (c' & Hc' & E)].
        inversion E. subst. congruence.
  - destruct (Regex.rest st) as [|c s'] eqn:Er.
    + split.
      * intros (st1 & [<- | []] & E). left. congruence.
      * intros [<- | (c & _ & E)]; [|discriminate E].
        exists st. split; [left; reflexivity | exact Er].
    + destruct (p c) eqn:Hc.
      * split.
        -- intros (st1 & [<- | [<- | []]] & E).
           ++ simpl in E. subst. right. eauto.
           ++ left. congruence.
        -- intros [<- | (c' & _ & E)].
           ++ exists st. split; [right; left; reflexivity | exact Er].
           ++ inversion E. subst. eexists. split; [left; reflexivity | reflexivity].
      * split.
        -- intros (st1 & [<- | []] & E). left. congruence.
        -- intros [<- | (c' & Hc' & E)].
           ++ exists st. split; [left; reflexivity | exact Er].
           ++ inversion E. subst. congruence.
  - rewrite <- in_plus_rests. split.
    + intros (st1 & Hin & E). apply in_map_iff in Hin as (s1 & <- & Hin).
      simpl in E. subst. exact Hin.
    + intros Hin. exists (Regex.advance st mid).
      split; [apply in_map; exact Hin | reflexivity].
  - rewrite <- rep_rest_iff.
    destruct (Regex.rep_rest n p (Regex.rest st)) as [s1|]; simpl.
    + split; [intros (st1 & [<- | []] & E); simpl in E; congruence|].
      intros E. inversion E. subst. eexists. split; [left; reflexivity | reflexivity].
    + split; [intros (st1 & [] & _) | discriminate].
  - split.
    + intros (st1 & [<- | []] & E). exact E.
    + intros E. eexists. split; [left; reflexivity | exact E].
  - destruct (Regex.gopen st).
    + split.
      * intros (st1 & [<- | []] & E). exact E.
      * intros E. eexists. split; [left; reflexivity | exact E].
    + split.
      * intros (st1 & [<- | []] & E). exact E.
      * intros E. eexists. split; [left; reflexivity | exact E].
Qed.

(** The ways the matcher finds are the texts of the pattern. *)
Lemma run_spells (r : Regex.regex) :
  Spec.unanchored r = true ->
  forall st s',
    (exists st', In st' (Regex.run r st) /\ Regex.rest st' = s') <->
    Spec.spells r (Regex.rest st) s'.
Proof.
  induction r as [|it r IH]; intros U st s'.
  - simpl. split.
    + intros (st' & [<- | []] & E). exact E.
    + intros E. exists st. auto.
  - assert (Spec.unanchored [it] = true /\ Spec.unanchored r = true) as (Uit & Ur).
    { unfold Spec.unanchored in *. simpl in *.
      apply andb_true_iff in U as (U1 & U2). rewrite U1. auto. }
    cbn [Regex.run Spec.spells]. split.
    + intros (st' & Hin & E). apply in_flat_map in Hin as (st1 & H1 & Hin).
      exists (Regex.rest st1). split.
      * apply (step_takes it st (Regex.rest st1) Uit). eauto.
      * apply (IH Ur). eauto.
    + intros (mid & T & Sp).
      apply (step_takes it st mid Uit) in T as (st1 & H1 & <-).
      apply (IH Ur) in Sp as (st' & Hin & E).
      exists st'. split; [apply in_flat_map; eauto | exact E].
Qed.

Lemma exec_at_spells (r : Regex.regex) (i : nat) (t : string) :
  Spec.unanchored r = true ->
  (Regex.exec_at r i t <> None <-> exists s', Spec.spells r t s').
Proof.
  intros U. unfold Regex.exec_at. split.
  - destruct (Regex.run r (Regex.start t i)) as [|st' l] eqn:E; simpl; [congruence|].
    intros _. exists (Regex.rest st').
    apply (run_spells r U (Regex.start t i)). exists st'. rewrite E. simpl. auto.
  - intros (s' & Sp).
    apply (run_spells r U (Regex.start t i)) in Sp as (st' & Hin & _).
    destruct (Regex.run r (Regex.start t i)); [destruct Hin | discriminate].
Qed.

Lemma search_from_spells (r : Regex.regex) (t : string) :
  Spec.unanchored r = true ->
  (exists s', Spec.spells r t s') ->
  forall pre i, Regex.search_from r i (pre ++ t) <> None.
Proof.
  intros U Sp. induction pre as [|c pre IH]; intros i.
  - simpl. apply (exec_at_spells r i t U) in Sp.
    destruct (Regex.exec_at r i t) as [m|] eqn:E; [|congruence].
    rewrite (search_from_here _ _ _ E). discriminate.
  - cbn [append Regex.search_from].
    destruct (Regex.exec_at r i (String c (pre ++ t))); [discriminate | apply IH].
Qed.

(** An unanchored pattern is found in the inputs that hold one of its
    texts. *)
Lemma test_spells (r : Regex.regex) (s : string) :
  Spec.unanchored r = true ->
  (Regex.test r s = true <-> exists pre t s', s = pre ++ t /\ Spec.spells r t s').
Proof.
  intros U. unfold Regex.test, Regex.exec. split.
  - destruct (Regex.search_from r 0 s) as [m|] eqn:E; [|discriminate].
    intros _. apply search_from_found in E as (pre & t & -> & E).
    assert (Regex.exec_at r (0 + String.length pre) t <> None) as N by congruence.
    apply (exec_at_spells r _ t U) in N as (s' & Sp). eauto.
  - intros (pre & t & s' & -> & Sp).
    pose proof (@search_from_spells r t U (ex_intro _ s' Sp) pre 0) as N.
    destruct (Regex.search_from r 0 (pre ++ t)); [reflexivity | congruence].
Qed.

Ltac spell_lit := eexists; split; [reflexivity|].
Ltac spell_run d H1 H2 :=
  eexists; split; [exists d; split; [exact H1 | split; [exact H2 | reflexivity]]|].

Lemma nytimes_recognised (url : string) :
  Regex.test (nth 0 Newspapers.urlPatterns []) url = true <->
  Spec.nytimes_article url.
Proof.
  rewrite test_spells by reflexivity. cbn [nth Newspapers.urlPatterns].
  unfold Spec.nytimes_article, Spec.digits, Spec.slug. split.
  - intros (pre & t & s' & -> & Sp). cbn [Spec.spells Spec.takes] in Sp.
    destruct Sp as (m1 & -> & m2 & (y & Ly & Ay & ->) & m3 & -> &
                    m4 & (m & Lm & Am & ->) & m5 & -> &
                    m6 & (d & Ld & Ad & ->) & m7 & -> &
                    m8 & (sec & Hs & As & ->) & m9 & -> &
                    m10 & (nm & Hn & An & ->) & <-).
    exists pre, y, m, d, sec, nm, m10. auto 10.
  - intros (pre & y & m & d & sec & nm & post &
            (Ly & Ay) & (Lm & Am) & (Ld & Ad) & (Hs & As) & (Hn & An) & ->).
    eexists pre, _, post. split; [reflexivity|]. cbn [Spec.spells Spec.takes].
    spell_lit. spell_run y Ly Ay. spell_lit. spell_run m Lm Am. spell_lit.
    spell_run d Ld Ad. spell_lit. spell_run sec Hs As. spell_lit.
    spell_run nm Hn An. reflexivity.
Qed.

Lemma newyorker_recognised (url : string) :
  Regex.test (nth 1 Newspapers.urlPatterns []) url = true <->
  Spec.newyorker_article url.
Proof.
  rewrite test_spells by reflexivity. cbn [nth Newspapers.urlPatterns].
  unfold Spec.newyorker_article, Spec.slug. split.
  - intros (pre & t & s' & -> & Sp). cbn [Spec.spells Spec.takes] in Sp.
    destruct Sp as (m1 & -> & m2 & (sec & Hs & As & ->) & m3 & -> &
                    m4 & (sub & Hb & Ab & ->) & m5 & -> &
                    m6 & (nm & Hn & An & ->) & <-).
    exists pre, sec, sub, nm, m6. auto 10.
  - intros (pre & sec & sub & nm & post & (Hs & As) & (Hb & Ab) & (Hn & An) & ->).
    eexists pre, _, post. split; [reflexivity|]. cbn [Spec.spells Spec.takes].
    spell_lit. spell_run sec Hs As. spell_lit. spell_run sub Hb Ab. spell_lit.
    spell_run nm Hn An. reflexivity.
Qed.

Lemma parisreview_recognised (url : string) :
  Regex.test (nth 2 Newspapers.urlPatterns []) url = true <->
  Spec.parisreview_article url.
Proof.
  rewrite test_spells by reflexivity. cbn [nth Newspapers.urlPatterns].
  unfold Spec.parisreview_article, Spec.slug. split.
  - intros (pre & t & s' & -> & Sp). cbn [Spec.spells Spec.takes] in Sp.
    destruct Sp as (m1 & -> & m2 & (sec & Hs & As & ->) & m3 & -> &
                    m4 & (num & Hb & Ab & ->) & m5 & -> &
                    m6 & (nm & Hn & An & ->) & <-).
    exists pre, sec, num, nm, m6. auto 10.
  - intros (pre & sec & num & nm & post & (Hs & As) & Hb & Ab & (Hn & An) & ->).
    eexists pre, _, post. split; [reflexivity|]. cbn [Spec.spells Spec.takes].
    spell_lit. spell_run sec Hs As. spell_lit. spell_run num Hb Ab. spell_lit.
    spell_run nm Hn An. reflexivity.
Qed.

Lemma canHandleUrl_recognised (url : string) :
  Newspapers.canHandleUrl url = true <->
  Spec.nytimes_article url \/ Spec.newyorker_article url \/
  Spec.parisreview_article url.
Proof.
  rewrite <- nytimes_recognised, <- newyorker_recognised, <- parisreview_recognised.
  unfold Newspapers.canHandleUrl. cbn [existsb nth Newspapers.urlPatterns].
  rewrite !orb_true_iff. intuition discriminate.
Qed.

(** X13.  The newspapers integration gives an id, the one computed from
    the whole URL, exactly to the URLs that hold somewhere an article
    address of the New York Times ([nytimes.com/YYYY/MM/DD/section/name]),
    the New Yorker ([newyorker.com/section/sub/name]) or the Paris Review
    ([theparisreview.org/section/number/name]); every other URL gets
    [null]. *)
Theorem newspaper_urls_recognised
    (generatePaperIdFromUrl : string -> string) (url : string) :
  (Spec.nytimes_article url \/ Spec.newyorker_article url \/
   Spec.parisreview_article url ->
   Newspapers.extractPaperId generatePaperIdFromUrl url
   = Some (generatePaperIdFromUrl url)) /\
  (~ (Spec.nytimes_article url \/ Spec.newyorker_article url \/
      Spec.parisreview_article url) ->
   Newspapers.extractPaperId generatePaperIdFromUrl url = None).
Proof.
  unfold Newspapers.extractPaperId. split; intros H.
  - apply canHandleUrl_recognised in H. rewrite H. reflexivity.
  - destruct (Newspapers.canHandleUrl url) eqn:E; [|reflexivity].
    apply canHandleUrl_recognised in E. contradiction.
Qed.

Lemma newspaper_urls_recognised_witness :
  Newspapers.extractPaperId (fun url => "url." ++ url)
    "https://www.nytimes.com/2024/05/01/science/black-holes.html"
  = Some "url.https://www.nytimes.com/2024/05/01/science/black-holes.html".
Proof.
  apply (newspaper_urls_recognised (fun url => "url." ++ url)
           "https://www.nytimes.com/2024/05/01/science/black-holes.html").
  left. exists "https://www.", "2024", "05", "01", "science", "black-holes", ".html".
  unfold Spec.digits, Spec.slug.
  repeat split; try reflexivity; discriminate.
Defined.

(** A match of a pattern whose rest always fills group 1 has group 1. *)
Lemma group_of_match (l : string) (tail : Regex.regex) :
  (forall t1 j g,
     Regex.first_group (Regex.run tail (Regex.start t1 j)) = Some g -> g <> None) ->
  forall i s m,
    Regex.search_from (Regex.Lit l :: tail) i s = Some m -> Regex.group1 m <> None.
Proof.
  intros P i s m H. apply search_from_found in H as (pre & t & _ & E).
  assert (Regex.first_group
            (Regex.run (Regex.Lit l :: tail) (Regex.start t (i + String.length pre)))
          = Some (Regex.group1 m)) as F.
  { unfold Regex.first_group. unfold Regex.exec_at in E. rewrite E. reflexivity. }
  rewrite lit_group in F.
  destruct (Regex.strip_prefix l t) as [t1|]; [|discriminate F].
  exact (P _ _ _ F).
Qed.

Lemma option_map_Some_group {A} (f : A -> string) (o : option A) (g : option string) :
  option_map (fun x => Some (f x)) o = Some g -> g <> None.
Proof. destruct o; simpl; intros H; inversion H; discriminate. Qed.

Lemma exec_test (r : Regex.regex) (s : string) :
  Regex.exec r s <> None <-> Regex.test r s = true.
Proof.
  unfold Regex.test. destruct (Regex.exec r s); split; congruence.
Qed.

Lemma ieee_recognised (url : string) :
  Ieee.extractPaperId url <> None <->
  Regex.test (nth 0 Ieee.urlPatterns []) url = true.
Proof.
  rewrite <- exec_test. unfold Ieee.extractPaperId.
  destruct (Regex.exec (nth 0 Ieee.urlPatterns []) url) as [m|] eqn:E;
    [|split; congruence].
  split; [discriminate | intros _].
  refine (@group_of_match _ _ _ 0 url m E).
  intros t1 j g. rewrite ieee_tail_group. apply option_map_Some_group.
Qed.

Lemma nber_recognised (url : string) :
  Nber.extractPaperId url <> None <->
  Regex.test (nth 0 Nber.urlPatterns []) url = true.
Proof.
  rewrite <- exec_test. unfold Nber.extractPaperId.
  destruct (Regex.exec (nth 0 Nber.urlPatterns []) url) as [m|] eqn:E;
    [|split; congruence].
  split; [discriminate | intros _].
  refine (@group_of_match _ _ _ 0 url m E).
  intros t1 j g. rewrite nber_tail_group. apply option_map_Some_group.
Qed.

Lemma acl_recognised (url : string) :
  AclAnthology.extractPaperId url <> None <->
  Regex.test (nth 0 AclAnthology.urlPatterns []) url = true.
Proof.
  rewrite <- exec_test. unfold AclAnthology.extractPaperId.
  destruct (Regex.exec (nth 0 AclAnthology.urlPatterns []) url) as [m|] eqn:E;
    [|split; congruence].
  split; [discriminate | intros _].
  assert (Regex.group1 m <> None) as G.
  { refine (@group_of_match _ _ _ 0 url m E).
    intros t1 j g. rewrite acl_tail_group.
    destruct t1 as [|c t2]; [discriminate|].
    destruct (Regex.upper c || Regex.digit c); [|discriminate].
    apply option_map_Some_group. }
  destruct (Regex.group1 m); [discriminate | congruence].
Qed.

(** X14.  Which URLs the three integrations with ids recognise: IEEE the
    ones that hold [ieeexplore.ieee.org/document/] and a digit, NBER the
    ones that hold [nber.org/papers/], perhaps a [w], and a digit, the
    ACL Anthology the ones that hold [aclanthology.org/], a capital or a
    digit, and one more character of an id.  Nothing before or after
    that is looked at. *)
Theorem id_urls_recognised (url : string) :
  (Ieee.extractPaperId url <> None <->
   exists pre c post,
     Regex.digit c = true /\
     url = pre ++ "ieeexplore.ieee.org/document/" ++ String c post) /\
  (Nber.extractPaperId url <> None <->
   exists pre c post,
     Regex.digit c = true /\
     (url = pre ++ "nber.org/papers/" ++ String c post \/
      url = pre ++ "nber.org/papers/w" ++ String c post)) /\
  (AclAnthology.extractPaperId url <> None <->
   exists pre c c' post,
     (Regex.upper c || Regex.digit c) = true /\
     (Regex.word c' || Js.is_char "." c' || Js.is_char "-" c') = true /\
     url = pre ++ "aclanthology.org/" ++ String c (String c' post)).
Proof.
  split; [|split].
  - rewrite ieee_recognised, test_spells by reflexivity.
    cbn [nth Ieee.urlPatterns]. split.
    + intros (pre & t & s' & -> & Sp). cbn [Spec.spells Spec.takes] in Sp.
      destruct Sp as (m1 & -> & m2 & -> & m3 & (d & Hd & Ad & ->) & m4 & -> & <-).
      destruct d as [|c d]; [congruence|]. simpl in Ad.
      apply andb_true_iff in Ad as (Hc & _).
      exists pre, c, (d ++ m4). auto.
    + intros (pre & c & post & Hc & ->).
      eexists pre, _, post. split; [reflexivity|]. cbn [Spec.spells Spec.takes].
      spell_lit. eexists; split; [reflexivity|].
      eexists; split; [exists (String c ""); simpl; rewrite Hc;
                        split; [discriminate | split; reflexivity]|].
      eexists; split; reflexivity.
  - rewrite nber_recognised, test_spells by reflexivity.
    cbn [nth Nber.urlPatterns]. split.
    + intros (pre & t & s' & -> & Sp). cbn [Spec.spells Spec.takes] in Sp.
      destruct Sp as (m1 & -> & m2 & -> & m3 & Hw & m4 & (d & Hd & Ad & ->) &
                      m5 & -> & <-).
      destruct d as [|c d]; [congruence|]. simpl in Ad.
      apply andb_true_iff in Ad as (Hc & _).
      exists pre, c, (d ++ m5). split; [exact Hc|].
      destruct Hw as [-> | (w & Hw & ->)]; [left; reflexivity|].
      apply is_char_eq in Hw. subst w. right. reflexivity.
    + intros (pre & c & post & Hc & E).
      assert (Spec.takes (Regex.Plus Regex.digit) (String c post) post) as T.
      { exists (String c ""). simpl. rewrite Hc.
        split; [discriminate | split; reflexivity]. }
      destruct E as [-> | ->].
      * eexists pre, _, post. split; [reflexivity|]. cbn [Spec.spells].
        spell_lit. eexists; split; [reflexivity|].
        eexists; split; [left; reflexivity|].
        eexists; split; [exact T|].
        eexists; split; reflexivity.
      * exists pre, ("nber.org/papers/" ++ String "w" (String c post)), post.
        split; [reflexivity|]. cbn [Spec.spells].
        spell_lit. eexists; split; [reflexivity|].
        eexists; split; [right; exists "w"%char; split; reflexivity|].
        eexists; split; [exact T|].
        eexists; split; reflexivity.
  - rewrite acl_recognised, test_spells by reflexivity.
    cbn [nth AclAnthology.urlPatterns]. split.
    + intros (pre & t & s' & -> & Sp). cbn [Spec.spells Spec.takes] in Sp.
      destruct Sp as (m1 & -> & m2 & -> & m3 & (c & Hc & ->) &
                      m4 & (d & Hd & Ad & ->) & m5 & -> & _).
      destruct d as [|c' d]; [congruence|]. cbn [Spec.all_in] in Ad.
      apply andb_true_iff in Ad as (Hc' & _).
      exists pre, c, c', (d ++ m5). auto.
    + intros (pre & c & c' & post & Hc & Hc' & ->).
      eexists pre, _, post. split; [reflexivity|]. cbn [Spec.spells Spec.takes].
      spell_lit. eexists; split; [reflexivity|].
      eexists; split; [exists c; split; [exact Hc | reflexivity]|].
      eexists; split; [exists (String c' ""); cbn [Spec.all_in]; rewrite Hc';
                        split; [discriminate | split; reflexivity]|].
      eexists; split; [reflexivity|].
      eexists; split; [left; reflexivity | reflexivity].
Qed.

(** ** Clean tags and their round trip *)

Lemma trimStart_all_in (q : ascii -> bool) (s : string) :
  Spec.all_in q s = true -> Spec.all_in q (Js.trimStart s) = true.
Proof.
  induction s as [|c s IH]; simpl; [auto|]. intros H.
  destruct (Js.is_space c); [|exact H].
  apply andb_true_iff in H as (_ & H). auto.
Qed.

Lemma trimEnd_all_in (q : ascii -> bool) (s : string) :
  Spec.all_in q s = true -> Spec.all_in q (Js.trimEnd s) = true.
Proof.
  induction s as [|c s IH]; simpl; [auto|]. intros H.
  apply andb_true_iff in H as (Hc & H). specialize (IH H).
  destruct (Js.trimEnd s) as [|c' t].
  - destruct (Js.is_space c); simpl; [reflexivity | rewrite Hc; reflexivity].
  - change (Spec.all_in q (String c (String c' t)))
      with (q c && Spec.all_in q (String c' t)).
    rewrite Hc, IH. reflexivity.
Qed.

Lemma trimStart_head (s : string) :
  Spec.starts_in Js.is_space (Js.trimStart s) = false.
Proof.
  induction s as [|c s IH]; simpl; [reflexivity|].
  destruct (Js.is_space c) eqn:E; [exact IH | simpl; exact E].
Qed.

Lemma trimEnd_idempotent (s : string) : Js.trimEnd (Js.trimEnd s) = Js.trimEnd s.
Proof.
  induction s as [|c s IH]; [reflexivity|]. cbn [Js.trimEnd].
  destruct (Js.trimEnd s) as [|c' t] eqn:E.
  - destruct (Js.is_space c) eqn:Hc; [reflexivity|].
    simpl. rewrite Hc. reflexivity.
  - change (Js.trimEnd (String c (String c' t)))
      with (match Js.trimEnd (String c' t) with
            | EmptyString => if Js.is_space c then EmptyString else String c EmptyString
            | t0 => String c t0
            end).
    rewrite IH. reflexivity.
Qed.

Lemma trimStart_trimEnd (u : string) :
  Spec.starts_in Js.is_space u = false -> Js.trimStart (Js.trimEnd u) = Js.trimEnd u.
Proof.
  destruct u as [|c u]; [reflexivity|]. cbn [Spec.starts_in Js.trimEnd]. intros Hc.
  destruct (Js.trimEnd u); [rewrite Hc|]; cbn [Js.trimStart]; rewrite Hc; reflexivity.
Qed.

Lemma trim_idempotent (s : string) : Js.trim (Js.trim s) = Js.trim s.
Proof.
  unfold Js.trim. rewrite (trimStart_trimEnd _ (trimStart_head s)).
  apply trimEnd_idempotent.
Qed.

Lemma split_all_in (p : ascii -> bool) (s : string) :
  Forall (fun t => Spec.all_in (fun c => negb (p c)) t = true) (Js.split p s).
Proof.
  induction s as [|c s IH]; simpl.
  - constructor; [reflexivity | constructor].
  - destruct (p c) eqn:Hc.
    + constructor; [reflexivity | exact IH].
    + destruct (Js.split p s) as [|piece pieces].
      * constructor; [simpl; rewrite Hc; reflexivity | constructor].
      * inversion IH; subst. constructor; [|assumption].
        simpl. rewrite Hc. assumption.
Qed.

(** The trimmed pieces between separators are clean. *)
Lemma trimmed_pieces_clean (p : ascii -> bool) (s : string) :
  Forall (Spec.clean_tag p) (map Js.trim (Js.split p s)).
Proof.
  apply Forall_map. eapply Forall_impl; [|apply split_all_in].
  intros t H. split; [apply trim_idempotent|].
  unfold Js.trim. apply trimEnd_all_in, trimStart_all_in. exact H.
Qed.

Lemma Forall_filter {A} (P : A -> Prop) (f : A -> bool) (l : list A) :
  Forall P l -> Forall P (filter f l).
Proof.
  intros H. apply Forall_forall. intros x Hin.
  apply filter_In in Hin as (Hin & _).
  exact (proj1 (Forall_forall P l) H x Hin).
Qed.

(** X15.  Whatever the page says, every tag the four extractors give has
    no white space around it and holds none of the separators the
    extractor splits at: no comma, and for IEEE no semicolon either. *)
Theorem tags_are_clean (base : MetadataExtractor) (document : Dom.Document) :
  Forall (Spec.clean_tag (Js.is_char ","))
    (AclAnthology.extractTags base document) /\
  Forall (Spec.clean_tag (Js.is_char ",")) (Nber.extractTags base document) /\
  Forall (Spec.clean_tag (fun c => Js.is_char "," c || Js.is_char ";" c))
    (Ieee.extractTags base document) /\
  Forall (Spec.clean_tag (Js.is_char ",")) (Newspapers.extractTags base document).
Proof.
  unfold AclAnthology.extractTags, Nber.extractTags, Ieee.extractTags,
    Newspapers.extractTags, Newspapers.split_tags.
  repeat split;
    repeat match goal with
      | |- Forall _ (if ?b then _ else _) => destruct b
      | |- Forall _ (let k := _ in _) => cbv zeta
      end;
    try apply Forall_nil;
    try apply Forall_filter; apply trimmed_pieces_clean.
Qed.

Lemma split_piece (p : ascii -> bool) (t rest : string) (c : ascii) :
  Spec.all_in (fun c => negb (p c)) t = true -> p c = true ->
  Js.split p (t ++ String c rest) = t :: Js.split p rest.
Proof.
  intros Ht Hc. induction t as [|a t IH]; simpl.
  - rewrite Hc. reflexivity.
  - simpl in Ht. apply andb_true_iff in Ht as (Ha & Ht).
    apply negb_true_iff in Ha. rewrite Ha, (IH Ht). reflexivity.
Qed.

Lemma split_clean (p : ascii -> bool) (t : string) :
  Spec.all_in (fun c => negb (p c)) t = true -> Js.split p t = [t].
Proof.
  induction t as [|a t IH]; simpl; [reflexivity|]. intros Ht.
  apply andb_true_iff in Ht as (Ha & Ht).
  apply negb_true_iff in Ha. rewrite Ha, (IH Ht). reflexivity.
Qed.

Lemma trim_split_space (p : ascii -> bool) (x : string) :
  p " "%char = false ->
  map Js.trim (Js.split p (String " " x)) = map Js.trim (Js.split p x).
Proof.
  intros Hp. cbn [Js.split]. rewrite Hp.
  destruct (split_head p x) as (piece & pieces & ->). reflexivity.
Qed.

(** Splitting and trimming what [join(', ')] made of clean tags gives
    the tags back. *)
Lemma tags_of_join (p : ascii -> bool) (ts : list string) :
  p ","%char = true -> p " "%char = false ->
  ts <> [] -> Forall (Spec.clean_tag p) ts ->
  map Js.trim (Js.split p (Js.join ", " ts)) = ts.
Proof.
  intros Hc Hs. induction ts as [|t ts IH]; [congruence|]. intros _ H.
  inversion H as [|? ? (Tt & At) Hts]; subst.
  destruct ts as [|t' ts].
  - unfold Js.join. cbn [String.concat].
    rewrite (@split_clean _ _ At). cbn [map]. rewrite Tt. reflexivity.
  - change (Js.join ", " (t :: t' :: ts))
      with (t ++ String "," (String " " (Js.join ", " (t' :: ts)))).
    rewrite (@split_piece _ _ _ _ At Hc). cbn [map].
    rewrite (@trim_split_space _ _ Hs), Tt, IH; [reflexivity | discriminate | exact Hts].
Qed.

Lemma filter_nonempty (ts : list string) :
  Forall (fun t => t <> "") ts ->
  filter (fun t => negb (Js.is_empty t)) ts = ts.
Proof.
  induction 1 as [|t ts Ht _ IH]; simpl; [reflexivity|].
  destruct t; [congruence|]. simpl. rewrite IH. reflexivity.
Qed.

Lemma join_nonempty (sep : string) (ts : list string) :
  ts <> [] -> Forall (fun t => t <> "") ts -> Js.is_empty (Js.join sep ts) = false.
Proof.
  intros Hne H. destruct H as [|t ts Ht _]; [congruence|].
  destruct t as [|a t]; [congruence|].
  unfold Js.join. destruct ts; reflexivity.
Qed.

Lemma all_in_neither (p q : ascii -> bool) (t : string) :
  Spec.all_in (fun c => negb (p c)) t = true ->
  Spec.all_in (fun c => negb (q c)) t = true ->
  Spec.all_in (fun c => negb (p c || q c)) t = true.
Proof.
  induction t as [|a t IH]; simpl; [reflexivity|]. intros Hp Hq.
  apply andb_true_iff in Hp as (Ha & Hp). apply andb_true_iff in Hq as (Hb & Hq).
  rewrite negb_orb, Ha, Hb, (IH Hp Hq). reflexivity.
Qed.

(** X16.  Tags written to the page the usual way come back as they
    were: when the meta tag an extractor reads first holds non-empty
    clean tags joined by a comma and a space, the extractor returns
    exactly those tags, in order.  For IEEE the tags must hold no
    semicolon either. *)
Theorem joined_tags_come_back
    (base : MetadataExtractor) (document : Dom.Document) (tags : list string) :
  tags <> [] ->
  Forall (fun t => t <> "") tags ->
  Forall (Spec.clean_tag (Js.is_char ",")) tags ->
  (getMetaContent base document (Dom.tag_with "meta" "name" "keywords")
   = Js.join ", " tags ->
   AclAnthology.extractTags base document = tags /\
   Nber.extractTags base document = tags) /\
  (getMetaContent base document (Dom.tag_with "meta" "name" "news_keywords")
   = Js.join ", " tags ->
   Newspapers.extractTags base document = tags) /\
  (getMetaContent base document (Dom.tag_with "meta" "name" "citation_keywords")
   = Js.join ", " tags ->
   Forall (fun t => Js.includes ";" t = false) tags ->
   Ieee.extractTags base document = tags).
Proof.
  intros Hne Hfull Hclean.
  pose proof (@join_nonempty ", " tags Hne Hfull) as Hj.
  pose proof (@tags_of_join (Js.is_char ",") tags eq_refl eq_refl Hne Hclean) as Hcomma.
  split; [|split].
  - intros E. unfold AclAnthology.extractTags, Nber.extractTags.
    rewrite E, Hj. cbn [negb]. auto.
  - intros E. unfold Newspapers.extractTags, Newspapers.split_tags.
    rewrite E, Hj. cbn [negb]. rewrite Hcomma. apply filter_nonempty. exact Hfull.
  - intros E Hsemi. unfold Ieee.extractTags. cbv zeta.
    rewrite E, Hj. cbn [negb]. rewrite Hj. cbn [negb].
    rewrite (@tags_of_join (fun c => Js.is_char "," c || Js.is_char ";" c) tags
               eq_refl eq_refl Hne).
    + apply filter_nonempty. exact Hfull.
    + apply Forall_forall. intros t Hin.
      pose proof (proj1 (Forall_forall _ _) Hclean t Hin) as (Tt & At).
      pose proof (proj1 (Forall_forall _ _) Hsemi t Hin) as St.
      split; [exact Tt|]. apply all_in_neither; [exact At|].
      clear - St. induction t as [|a t IH]; [reflexivity|].
      cbn [Js.includes] in St. apply orb_false_iff in St as (Ha & St).
      cbn [Spec.all_in]. unfold Js.is_char at 1. rewrite Ha, (IH St). reflexivity.
Qed.

Lemma joined_tags_come_back_witness :
  let doc :=
    Samples.page [ Samples.meta "keywords" "machine translation, parsing";
                   Samples.meta "news_keywords" "machine translation, parsing";
                   Samples.meta "citation_keywords" "machine translation, parsing" ] in
  AclAnthology.extractTags Samples.plain_base doc = ["machine translation"; "parsing"] /\
  Nber.extractTags Samples.plain_base doc = ["machine translation"; "parsing"] /\
  Newspapers.extractTags Samples.plain_base doc = ["machine translation"; "parsing"] /\
  Ieee.extractTags Samples.plain_base doc = ["machine translation"; "parsing"].
Proof.
  cbv zeta.
  assert (["machine translation"; "parsing"] <> []) as Hne by discriminate.
  assert (Forall (fun t => t <> "") ["machine translation"; "parsing"]) as Hfull.
  { repeat constructor; discriminate. }
  assert (Forall (Spec.clean_tag (Js.is_char ","))
            ["machine translation"; "parsing"]) as Hclean.
  { repeat constructor; reflexivity. }
  destruct (@joined_tags_come_back Samples.plain_base
              (Samples.page
                 [ Samples.meta "keywords" "machine translation, parsing";
                   Samples.meta "news_keywords" "machine translation, parsing";
                   Samples.meta "citation_keywords" "machine translation, parsing" ])
              ["machine translation"; "parsing"] Hne Hfull Hclean)
    as (Hk & Hn & Hi).
  destruct (Hk eq_refl) as (Ha & Hb).
  split; [exact Ha|]. split; [exact Hb|]. split; [exact (Hn eq_refl)|].
  apply Hi; [reflexivity | repeat constructor].
Defined.

(** ** The byline of a newspaper article *)

Lemma trimStart_unchanged (s : string) :
  Spec.starts_in Js.is_space s = false -> Js.trimStart s = s.
Proof.
  destruct s as [|c s]; [reflexivity|]. cbn [Spec.starts_in Js.trimStart].
  intros ->. reflexivity.
Qed.

(** The first way [\s+] matches leaves what [trimStart] leaves. *)
Lemma hd_plus_rests_space (s : string) :
  hd_error (Regex.plus_rests Js.is_space s)
  = if Spec.starts_in Js.is_space s then Some (Js.trimStart s) else None.
Proof.
  induction s as [|c s IH]; [reflexivity|].
  cbn [Regex.plus_rests Spec.starts_in Js.trimStart].
  destruct (Js.is_space c); [|reflexivity].
  destruct (Regex.plus_rests Js.is_space s) as [|x l]; cbn [app hd_error] in *.
  - destruct (Spec.starts_in Js.is_space s) eqn:E; [discriminate IH|].
    rewrite (trimStart_unchanged _ E). reflexivity.
  - destruct (Spec.starts_in Js.is_space s); [exact IH | discriminate IH].
Qed.

Lemma remove_from_Bol_later (r : Regex.regex) (i : nat) (s : string) :
  Regex.remove_from (Regex.Bol :: r) (S i) s = s.
Proof.
  revert i. induction s as [|c s IH]; intros i; [reflexivity|].
  cbn [Regex.remove_from]. unfold Regex.exec_at. rewrite run_Bol.
  cbn [Regex.start Regex.pos Nat.eqb hd_error]. rewrite IH. reflexivity.
Qed.

(** A pattern anchored by [^] is cut out at index 0 or nowhere. *)
Lemma remove_Bol (r : Regex.regex) (s : string) :
  Regex.remove (Regex.Bol :: r) s
  = match Regex.exec_at (Regex.Bol :: r) 0 s with
    | Some m => Regex.rest m
    | None => s
    end.
Proof.
  unfold Regex.remove. destruct s as [|c s]; cbn [Regex.remove_from].
  - destruct (Regex.exec_at _ 0 ""); reflexivity.
  - rewrite remove_from_Bol_later. reflexivity.
Qed.

Lemma remove_by_prefix (byl : string) :
  Regex.remove Newspapers.by_prefix byl
  = if Spec.by_then_space byl then Js.trimStart (Js.slice 2 byl) else byl.
Proof.
  unfold Newspapers.by_prefix. rewrite remove_Bol. unfold Regex.exec_at.
  unfold Regex.start. rewrite run_Bol. cbn [Regex.pos Nat.eqb].
  rewrite run_Cls. cbn [Regex.rest].
  destruct byl as [|b byl]; [reflexivity|]. cbn [Spec.by_then_space].
  destruct (Js.is_char "B" b || Js.is_char "b" b);
    [|destruct byl as [|? [|? ?]]; reflexivity].
  rewrite run_Cls. cbn [Regex.rest Regex.advance].
  destruct byl as [|y byl]; [reflexivity|].
  destruct (Js.is_char "Y" y || Js.is_char "y" y);
    [|destruct byl; reflexivity].
  rewrite run_Plus. cbn [Regex.rest Regex.advance Regex.run].
  pose proof (hd_plus_rests_space byl) as H.
  destruct byl as [|w rest]; [reflexivity|].
  cbn [Spec.starts_in] in H. cbn [andb Js.slice].
  destruct (Regex.plus_rests Js.is_space (String w rest)) as [|x l];
    cbn [hd_error flat_map app] in *.
  - destruct (Js.is_space w); [discriminate H | reflexivity].
  - destruct (Js.is_space w); [|discriminate H].
    inversion H. reflexivity.
Qed.

(** X17.  When the page names no author in [article:author] or [author]
    and its first [byl] meta tag has a content, the newspapers extractor
    returns that content without a leading [By] (in either case) and the
    white space after it; a content that does not start that way is
    returned whole.  The base class is not asked, even when nothing is
    left of the byline. *)
Theorem byline_without_by
    (base : MetadataExtractor) (document : Dom.Document)
    (bylEl : Dom.Elem) (byl : string) :
  getMetaContent base document (Dom.tag_with "meta" "property" "article:author") = "" ->
  getMetaContent base document (Dom.tag_with "meta" "name" "author") = "" ->
  Dom.querySelector document (Dom.tag_with "meta" "name" "byl") = Some bylEl ->
  Dom.getAttribute bylEl "content" = Some byl ->
  byl <> "" ->
  Newspapers.extractAuthors base document
  = if Spec.by_then_space byl then Js.trimStart (Js.slice 2 byl) else byl.
Proof.
  intros Ha Hn Hq Hc Hb. unfold Newspapers.extractAuthors. cbv zeta.
  rewrite Ha, Hn, Hq, Hc. cbn [Js.is_empty negb].
  apply is_empty_false in Hb. rewrite Hb. cbn [negb].
  apply remove_by_prefix.
Qed.

Lemma byline_without_by_witness :
  Newspapers.extractAuthors Samples.plain_base
    (Samples.page [Samples.meta "byl" "By  Ada Lovelace and Alan Turing"])
  = "Ada Lovelace and Alan Turing" /\
  Newspapers.extractAuthors Samples.plain_base
    (Samples.page [Samples.meta "byl" "by "; Samples.meta "byl" "By Someone Else"])
  = "" /\
  Newspapers.extractAuthors Samples.plain_base
    (Samples.page [Samples.meta "byl" "Byron Smith"])
  = "Byron Smith".
Proof.
  split; [|split].
  - refine (@byline_without_by Samples.plain_base
              (Samples.page [Samples.meta "byl" "By  Ada Lovelace and Alan Turing"])
              _ "By  Ada Lovelace and Alan Turing"
              eq_refl eq_refl eq_refl eq_refl _). discriminate.
  - refine (@byline_without_by Samples.plain_base
              (Samples.page [Samples.meta "byl" "by ";
                             Samples.meta "byl" "By Someone Else"])
              _ "by " eq_refl eq_refl eq_refl eq_refl _). discriminate.
  - refine (@byline_without_by Samples.plain_base
              (Samples.page [Samples.meta "byl" "Byron Smith"])
              _ "Byron Smith" eq_refl eq_refl eq_refl eq_refl _). discriminate.
Defined.

(** ** Paper ids with and without a final slash *)





